(** * json_n_xliff: the record <-> translation-unit mapping, verified

    A shallow embedding of the three conversion scripts of the repository

      - json-to-xliff.js               (the flattening loop of [main]),
      - xliff-to-json.js               (the reconstruction loop of [main]),
      - json-consolidation-to-xliff.js ([escapeXml], [generateXliffContent],
                                        [main]),

    followed by the properties stated about them.

    JavaScript strings are carried as Rocq strings holding the UTF-8 bytes
    of the text, the encoding every script reads and writes its files in.
    The characters the scripts look at ([&], [<], [>], the two quotes,
    [a-f0-9-], [_]) are ASCII, and an ASCII byte never occurs inside a
    multi-byte sequence, so replacing and matching byte by byte agrees with
    what the scripts do on characters. *)

From Stdlib Require Import String Ascii List Bool Arith ZArith Lia.
From Stdlib Require Import Numbers.DecimalString.
Import ListNotations.
Local Open Scope list_scope.
Local Open Scope string_scope.

(** ** JavaScript values and objects *)

Module JS.

(** What [JSON.parse] can return, and [undefined], which reading a
    property that is not there gives.  A number is carried as the string
    that [ToString] gives for it ("1", "0.5", "1e+21"): two numbers a JSON
    text can denote are the same number exactly when these strings are the
    same, [+0] and [-0] both printing as "0". *)
#[warnings="-register-all"]
Inductive value : Type :=
| VUndefined
| VNull
| VBool (b : bool)
| VNum (repr : string)
| VStr (s : string)
| VArr (elems : list value)
| VObj (props : list (string * value)).

(** A plain object: its own properties in the order [Object.keys] lists
    them.  The arrays the scripts read are arrays of such objects, here
    [list obj]. *)
Definition obj : Type := list (string * value).

Definition keys (o : obj) : list string := map fst o.

Fixpoint lookup (k : string) (o : obj) : option value :=
  match o with
  | [] => None
  | (k', v) :: rest => if String.eqb k' k then Some v else lookup k rest
  end.

(** [o[k]] and [o.k], for a name [k] that [Object.prototype] does not
    define ([uuid], [title], [body] and the flat keys built from them). *)
Definition get (o : obj) (k : string) : value :=
  match lookup k o with
  | Some v => v
  | None => VUndefined
  end.

(** The names every object inherits from [Object.prototype]. *)
Definition object_prototype_names : list string :=
  [ "constructor"; "hasOwnProperty"; "isPrototypeOf"; "propertyIsEnumerable";
    "toLocaleString"; "toString"; "valueOf"; "__proto__";
    "__defineGetter__"; "__defineSetter__";
    "__lookupGetter__"; "__lookupSetter__" ].

(** What [o[k]] gives for an arbitrary name [k]: the own property, else an
    inherited member of [Object.prototype] (a function, or the prototype
    itself for [__proto__]), else [undefined]. *)
Inductive member : Type :=
| Data (v : value)
| Builtin.

Definition read (o : obj) (k : string) : member :=
  match lookup k o with
  | Some v => Data v
  | None =>
      if existsb (String.eqb k) object_prototype_names then Builtin
      else Data VUndefined
  end.

(** [o[k] = v] for a key [k] that is not an array index: an own key keeps
    its place, a new one goes last. *)
Fixpoint obj_set (o : obj) (k : string) (v : value) : obj :=
  match o with
  | [] => [(k, v)]
  | (k', v') :: rest =>
      if String.eqb k' k then (k', v) :: rest
      else (k', v') :: obj_set rest k v
  end.

(** ToBoolean. *)
Definition truthy (v : value) : bool :=
  match v with
  | VUndefined | VNull => false
  | VBool b => b
  | VNum repr => negb (String.eqb repr "0")
  | VStr s => negb (String.eqb s "")
  | VArr _ | VObj _ => true
  end.

Definition truthy_member (m : member) : bool :=
  match m with
  | Data v => truthy v
  | Builtin => true
  end.

(** [x || y] *)
Definition or_else (x : member) (y : value) : member :=
  if truthy_member x then x else Data y.

Definition or_else_value (x y : value) : value :=
  if truthy x then x else y.

(** Exceptions. *)
Inductive exn : Type :=
| TypeError
| Error (message : string).

Inductive result (A : Type) : Type :=
| Ok (a : A)
| Throw (e : exn).
Arguments Ok {A} a.
Arguments Throw {A} e.

Definition bind {A B} (r : result A) (k : A -> result B) : result B :=
  match r with
  | Ok a => k a
  | Throw e => Throw e
  end.

(** ToString, as a template literal applies it.  An array joins its
    elements with commas, [null] and [undefined] elements printing as
    nothing.  An object prints through [Object.prototype.toString] unless
    it has an own property [toString], which, being data, cannot be
    called, and neither [valueOf] helps: a [TypeError]. *)
Fixpoint to_string (v : value) : result string :=
  match v with
  | VUndefined => Ok "undefined"
  | VNull => Ok "null"
  | VBool b => Ok (if b then "true" else "false")
  | VNum repr => Ok repr
  | VStr s => Ok s
  | VArr elems =>
      (fix join (l : list value) : result string :=
         match l with
         | [] => Ok ""
         | x :: rest =>
             let elem :=
               match x with
               | VUndefined | VNull => Ok ""
               | _ => to_string x
               end in
             match rest with
             | [] => elem
             | _ :: _ =>
                 bind elem (fun s =>
                 bind (join rest) (fun t => Ok (s ++ "," ++ t)))
             end
         end) elems
  | VObj props =>
      match lookup "toString" props with
      | Some _ => Throw TypeError
      | None => Ok "[object Object]"
      end
  end.

(** SameValueZero between a key of one parsed file and a key of another:
    primitives by content, while an array or an object is only ever the
    same as itself, and the two files share none. *)
Definition same_value_zero (x y : value) : bool :=
  match x, y with
  | VUndefined, VUndefined => true
  | VNull, VNull => true
  | VBool a, VBool b => Bool.eqb a b
  | VNum a, VNum b => String.eqb a b
  | VStr a, VStr b => String.eqb a b
  | _, _ => false
  end.

(** [String.prototype.trim] leaves nothing: every character is white
    space or a line terminator.  Besides the ASCII ones these are U+00A0,
    U+1680, U+2000..U+200A, U+2028, U+2029, U+202F, U+205F, U+3000 and
    U+FEFF, here in UTF-8. *)
Definition code (c : ascii) : nat := nat_of_ascii c.

Definition ascii_space (c : ascii) : bool :=
  existsb (Nat.eqb (code c)) [9; 10; 11; 12; 13; 32].

Definition two_byte_space (c1 c2 : ascii) : bool :=
  ((code c1 =? 194) && (code c2 =? 160))%nat.

Definition three_byte_space (c1 c2 c3 : ascii) : bool :=
  let a := code c1 in let b := code c2 in let c := code c3 in
  (((a =? 225) && (b =? 154) && (c =? 128))
   || ((a =? 226) && (b =? 128)
       && (((128 <=? c) && (c <=? 138))
           || (c =? 168) || (c =? 169) || (c =? 175)))
   || ((a =? 226) && (b =? 129) && (c =? 159))
   || ((a =? 227) && (b =? 128) && (c =? 128))
   || ((a =? 239) && (b =? 187) && (c =? 191)))%nat.

Fixpoint trims_to_empty (s : string) : bool :=
  match s with
  | EmptyString => true
  | String c1 r1 =>
      if ascii_space c1 then trims_to_empty r1
      else
        match r1 with
        | String c2 r2 =>
            if two_byte_space c1 c2 then trims_to_empty r2
            else
              match r2 with
              | String c3 r3 =>
                  if three_byte_space c1 c2 c3 then trims_to_empty r3
                  else false
              | EmptyString => false
              end
        | EmptyString => false
        end
  end.

(** [array.forEach(f)] with a callback that updates a state and may
    throw: the first exception ends the loop. *)
Fixpoint forEach {A S : Type} (f : S -> A -> result S) (l : list A) (s : S)
  : result S :=
  match l with
  | [] => Ok s
  | x :: rest => bind (f s x) (forEach f rest)
  end.

(** The line feed and the double quote inside the template literals. *)
Definition nl : string := String (ascii_of_nat 10) EmptyString.
Definition dq : string := String (ascii_of_nat 34) EmptyString.

End JS.

Import JS.

Notation "x <- c1 ;; c2" := (JS.bind c1 (fun x => c2))
  (at level 61, c1 at next level, right associativity).

(** ** json-consolidation-to-xliff.js *)

Module Consolidation.

(** [s.replace(/c/g, by)] for a one-character pattern and a replacement
    text without [$]. *)
Fixpoint replace_all (c : ascii) (by_ : string) (s : string) : string :=
  match s with
  | EmptyString => EmptyString
  | String x rest =>
      if Ascii.eqb x c then by_ ++ replace_all c by_ rest
      else String x (replace_all c by_ rest)
  end.

Definition amp : ascii := "&"%char.
Definition lt : ascii := "<"%char.
Definition gt : ascii := ">"%char.
Definition quot : ascii := ascii_of_nat 34.
Definition apos : ascii := "'"%char.

Definition replace_chain (text : string) : string :=
  replace_all apos "&apos;"
    (replace_all quot "&quot;"
       (replace_all gt "&gt;"
          (replace_all lt "&lt;"
             (replace_all amp "&amp;" text)))).

(** [escapeXml(text)]: a falsy argument gives the empty text; a string is
    rewritten; anything else truthy has no [replace] method. *)
Definition escapeXml (text : member) : result string :=
  if negb (truthy_member text) then Ok ""
  else
    match text with
    | Data (VStr s) => Ok (replace_chain s)
    | _ => Throw TypeError
    end.

(** [targetMap]: a [Map] from identifier to target record, in insertion
    order. *)
Definition target_map : Type := list (value * obj).

Fixpoint map_set (m : target_map) (k : value) (item : obj) : target_map :=
  match m with
  | [] => [(k, item)]
  | (k', item') :: rest =>
      if same_value_zero k' k then (k', item) :: rest
      else (k', item') :: map_set rest k item
  end.

Fixpoint map_get (m : target_map) (k : value) : option obj :=
  match m with
  | [] => None
  | (k', item) :: rest =>
      if same_value_zero k' k then Some item else map_get rest k
  end.

Definition targetMap (targetData : list obj) : target_map :=
  fold_left
    (fun m item =>
       if truthy (get item "uuid") then map_set m (get item "uuid") item
       else m)
    targetData [].

(** [typeof x === 'string' && x.trim() !== ''] *)
Definition nonblank_string (x : member) : bool :=
  match x with
  | Data (VStr s) => negb (trims_to_empty s)
  | _ => false
  end.

Definition firstSourceItem (sourceData : list obj) : option obj :=
  find (fun item => truthy (get item "uuid")) sourceData.

Definition translatableFields (first : obj) : list string :=
  filter
    (fun key => negb (String.eqb key "uuid") && nonblank_string (read first key))
    (keys first).

(** What the loop over the source records carries: the text of the units
    so far, their number, and the lines given to [console.warn]. *)
Record emitted : Type := {
  transUnits : string;
  unitCount : nat;
  warnings : list string
}.

Definition warn (st : emitted) (line : string) : emitted :=
  {| transUnits := transUnits st;
     unitCount := unitCount st;
     warnings := (warnings st ++ [line])%list |}.

(** The body of [translatableFields.forEach]. *)
Definition field_step (sourceItem targetItem : obj) (st : emitted)
  (fieldName : string) : result emitted :=
  let sourceText := read sourceItem fieldName in
  let targetText := read targetItem fieldName in
  (* !sourceText || typeof sourceText !== 'string' || sourceText.trim() === '' *)
  if negb (truthy_member sourceText) || negb (nonblank_string sourceText)
  then Ok st
  else
    uuid <- to_string (get sourceItem "uuid") ;;
    let unitId := uuid ++ "_" ++ fieldName in
    e_id <- escapeXml (Data (VStr unitId)) ;;
    e_source <- escapeXml sourceText ;;
    e_target <- escapeXml (or_else targetText (VStr "")) ;;
    e_field <- escapeXml (Data (VStr fieldName)) ;;
    e_uuid <- escapeXml (Data (get sourceItem "uuid")) ;;
    Ok {| transUnits :=
            transUnits st
            ++ "    <trans-unit id=" ++ dq ++ e_id ++ dq ++ ">" ++ nl
            ++ "      <source>" ++ e_source ++ "</source>" ++ nl
            ++ "      <target>" ++ e_target ++ "</target>" ++ nl
            ++ "      <note>" ++ e_field ++ " for UUID: " ++ e_uuid ++ "</note>" ++ nl
            ++ "    </trans-unit>" ++ nl;
          unitCount := S (unitCount st);
          warnings := warnings st |}.

(** The body of [sourceData.forEach]. *)
Definition item_step (fields : list string) (tmap : target_map)
  (st : emitted) (sourceItem : obj) : result emitted :=
  if negb (truthy (get sourceItem "uuid")) then Ok st
  else
    match map_get tmap (get sourceItem "uuid") with
    | None =>
        uuid <- to_string (get sourceItem "uuid") ;;
        Ok (warn st ("Warning: No target translation found for UUID: " ++ uuid))
    | Some targetItem => forEach (field_step sourceItem targetItem) fields st
    end.

Record xliff : Type := {
  content : string;
  xliff_unitCount : nat;
  fieldCount : nat
}.

Definition document (sourceLang targetLang units : string) : string :=
  "<?xml version=" ++ dq ++ "1.0" ++ dq ++ " encoding=" ++ dq ++ "UTF-8" ++ dq
  ++ "?>" ++ nl
  ++ "<xliff version=" ++ dq ++ "1.2" ++ dq
  ++ " xmlns=" ++ dq ++ "urn:oasis:names:tc:xliff:document:1.2" ++ dq ++ ">" ++ nl
  ++ "  <file original=" ++ dq ++ "consolidated_data" ++ dq
  ++ " source-language=" ++ dq ++ sourceLang ++ dq
  ++ " target-language=" ++ dq ++ targetLang ++ dq
  ++ " datatype=" ++ dq ++ "plaintext" ++ dq ++ ">" ++ nl
  ++ "    <header>" ++ nl
  ++ "      <tool tool-id=" ++ dq ++ "json-consolidation-to-xliff" ++ dq
  ++ " tool-name=" ++ dq ++ "JSON Consolidation to XLIFF Converter" ++ dq
  ++ " tool-version=" ++ dq ++ "1.0.0" ++ dq ++ "/>" ++ nl
  ++ "    </header>" ++ nl
  ++ "    <body>" ++ nl
  ++ units ++ "    </body>" ++ nl
  ++ "  </file>" ++ nl
  ++ "</xliff>".

Definition no_source_message : string :=
  "No valid source items found with uuid field".

Definition start : emitted :=
  {| transUnits := ""; unitCount := 0; warnings := [] |}.

(** [generateXliffContent(sourceData, targetData, sourceLang, targetLang)],
    together with what it wrote to [console.warn]. *)
Definition generateXliffContent (sourceData targetData : list obj)
  (sourceLang targetLang : string) : result (xliff * list string) :=
  let tmap := targetMap targetData in
  match firstSourceItem sourceData with
  | None => Throw (Error no_source_message)
  | Some first =>
      let fields := translatableFields first in
      st <- forEach (item_step fields tmap) sourceData start ;;
      Ok ({| content := document sourceLang targetLang (transUnits st);
             xliff_unitCount := unitCount st;
             fieldCount := length fields |},
          warnings st)
  end.

End Consolidation.

(** ** json-to-xliff.js *)

Module JsonToXliff.

(** [`${item.uuid}_title`] and [`${item.uuid}_body`]. *)
Definition title_key (uuid : string) : string := uuid ++ "_title".
Definition body_key (uuid : string) : string := uuid ++ "_body".

(** [item.uuid && item.title && item.body] *)
Definition qualifies (item : obj) : bool :=
  truthy (get item "uuid") && truthy (get item "title")
  && truthy (get item "body").

(** The body of [jsonData.forEach], on the pair [(sourceJson, targetJson)]. *)
Definition flatten_step (st : obj * obj) (item : obj) : result (obj * obj) :=
  let '(sourceJson, targetJson) := st in
  if qualifies item then
    uuid <- to_string (get item "uuid") ;;
    let sourceJson := obj_set sourceJson (title_key uuid) (get item "title") in
    let sourceJson := obj_set sourceJson (body_key uuid) (get item "body") in
    let targetJson := obj_set targetJson (title_key uuid) (VStr "") in
    let targetJson := obj_set targetJson (body_key uuid) (VStr "") in
    Ok (sourceJson, targetJson)
  else Ok st.

(** [sourceJson] and [targetJson] as [main] hands them to the engine. *)
Definition flatten (jsonData : list obj) : result (obj * obj) :=
  forEach flatten_step jsonData ([], []).

End JsonToXliff.

(** ** xliff-to-json.js *)

Module XliffToJson.

(** The class [[a-f0-9-]]. *)
Definition uuid_char (c : ascii) : bool :=
  let n := nat_of_ascii c in
  (((97 <=? n) && (n <=? 102)) || ((48 <=? n) && (n <=? 57)) || (n =? 45))%nat.

(** [[a-f0-9-]{n}] at the head of [s]: the text matched and what follows. *)
Fixpoint match_class (n : nat) (s : string) : option (string * string) :=
  match n with
  | 0 => Some (EmptyString, s)
  | S n' =>
      match s with
      | String c rest =>
          if uuid_char c then
            match match_class n' rest with
            | Some (u, after) => Some (String c u, after)
            | None => None
            end
          else None
      | EmptyString => None
      end
  end.

(** [key.match(/^([a-f0-9-]{36})_(title|body)$/)]: the two groups. *)
Definition uuidMatch (key : string) : option (string * string) :=
  match match_class 36 key with
  | Some (uuid, after) =>
      if String.eqb after "_title" then Some (uuid, "title")
      else if String.eqb after "_body" then Some (uuid, "body")
      else None
  | None => None
  end.

(** [x !== undefined] *)
Definition defined (v : value) : bool :=
  match v with
  | VUndefined => false
  | _ => true
  end.

(** The object literal [{ title: .., body: .., uuid: .. }]. *)
Definition record_of (title body uuid : value) : obj :=
  [("title", title); ("body", body); ("uuid", uuid)].

(** The body of the first [Object.keys(flatJsonData).forEach], on the pair
    [(transformedData, processedUuids)]. *)
Definition group_step (flatJsonData : obj) (st : list obj * list string)
  (key : string) : list obj * list string :=
  let '(transformedData, processedUuids) := st in
  match uuidMatch key with
  | Some (uuid, _) =>
      if existsb (String.eqb uuid) processedUuids then st
      else
        let titleKey := uuid ++ "_title" in
        let bodyKey := uuid ++ "_body" in
        if defined (get flatJsonData titleKey) || defined (get flatJsonData bodyKey)
        then
          ((transformedData ++
              [record_of (or_else_value (get flatJsonData titleKey) (VStr ""))
                 (or_else_value (get flatJsonData bodyKey) (VStr ""))
                 (VStr uuid)])%list,
           uuid :: processedUuids)
        else st
  | None => st
  end.

Definition decimal (z : Z) : string := NilZero.string_of_int (Z.to_int z).

(** [`generated-${Date.now()}-${index}`], the clock reading given. *)
Definition generated (reading : Z) (index : nat) : string :=
  "generated-" ++ decimal reading ++ "-" ++ decimal (Z.of_nat index).

(** The second [forEach], from position [index] on.  [now i] is what the
    call of [Date.now()] made for position [i] returns. *)
Fixpoint fallback_from (now : nat -> Z) (flatJsonData : obj) (index : nat)
  (ks : list string) : list obj :=
  match ks with
  | [] => []
  | key :: rest =>
      record_of (VStr key) (get flatJsonData key)
        (VStr (generated (now index) index))
      :: fallback_from now flatJsonData (S index) rest
  end.

(** [transformedData] as [main] writes it out. *)
Definition transform (now : nat -> Z) (flatJsonData : obj) : list obj :=
  let transformedData :=
    fst (fold_left (group_step flatJsonData) (keys flatJsonData) ([], [])) in
  if (length transformedData =? 0)%nat
  then fallback_from now flatJsonData 0 (keys flatJsonData)
  else transformedData.

End XliffToJson.

Import Consolidation JsonToXliff XliffToJson.


(** ** json-consolidation-to-xliff.js: [main] *)

Module ConsolidationMain.

Import Consolidation.

(** What [main] asks of the file system: [fs.existsSync]; reading a file
    and parsing it, [JSON.parse(fs.readFileSync(path, 'utf8'))], which
    throws when the file cannot be read or is no JSON; making sure the
    directory of the output file is there, which throws when it cannot be
    made; and [fs.writeFileSync(path, text, 'utf8')], which throws when the
    file cannot be written (the path is a directory, say). *)
Record world : Type := {
  existsSync : string -> bool;
  readJson : string -> result value;
  ensureDir : string -> result unit;
  writeFileSync : string -> string -> result unit
}.

(** How [main] ends: [process.exit(1)], no write having succeeded, or
    normally, after [fs.writeFileSync(path, text, 'utf8')] has returned. *)
Inductive outcome : Type :=
| Exit1
| Written (path text : string).

(** [Array.isArray(v)], with the elements. *)
Definition isArray (v : value) : option (list value) :=
  match v with
  | VArr elems => Some elems
  | _ => None
  end.

(** An element of a parsed array as [generateXliffContent] reads it:
    reading a property of [null] throws, and a text, a number, a boolean or
    an array has no [uuid], as an object without properties. *)
Definition as_record (v : value) : result obj :=
  match v with
  | VObj props => Ok props
  | VNull | VUndefined => Throw TypeError
  | _ => Ok []
  end.

Fixpoint as_records (elems : list value) : result (list obj) :=
  match elems with
  | [] => Ok []
  | v :: rest =>
      r <- as_record v ;;
      rs <- as_records rest ;;
      Ok (r :: rs)
  end.

(** [generateXliffContent] on two parsed arrays.  A [null] element throws
    a [TypeError] wherever it stands. *)
Definition generate (sourceData targetData : list value)
  (sourceLang targetLang : string) : result (xliff * list string) :=
  targets <- as_records targetData ;;
  sources <- as_records sourceData ;;
  generateXliffContent sources targets sourceLang targetLang.

(** [main], for the arguments after the script name. *)
Definition main (w : world) (args : list string) : outcome :=
  if (List.length args <? 3)%nat || (5 <? List.length args)%nat then Exit1
  else
    let sourceFile := nth 0 args "" in
    let targetFile := nth 1 args "" in
    let outputFile := nth 2 args "" in
    let sourceLang := nth 3 args "en" in
    let targetLang := nth 4 args "ko" in
    if negb (existsSync w sourceFile) then Exit1
    else if negb (existsSync w targetFile) then Exit1
    else
      match readJson w sourceFile with
      | Throw _ => Exit1
      | Ok sourceJson =>
          match readJson w targetFile with
          | Throw _ => Exit1
          | Ok targetJson =>
              match isArray sourceJson with
              | None => Exit1
              | Some sourceData =>
                  match isArray targetJson with
                  | None => Exit1
                  | Some targetData =>
                      match generate sourceData targetData sourceLang targetLang with
                      | Throw _ => Exit1
                      | Ok (x, _) =>
                          match ensureDir w outputFile with
                          | Throw _ => Exit1
                          | Ok _ =>
                              (* the write is inside the [try] as well *)
                              match writeFileSync w outputFile (content x) with
                              | Throw _ => Exit1
                              | Ok _ => Written outputFile (content x)
                              end
                          end
                      end
                  end
              end
          end
      end.

End ConsolidationMain.

(** ** json-to-xliff.js: the loop on a parsed array *)

Module JsonToXliffArray.

Import JsonToXliff.

(** The body of [jsonData.forEach] on an element of what [JSON.parse]
    gave, [Array.isArray] being all [main] has checked: [item.uuid] throws
    on [null]; a text, a number, a boolean or an array has no [uuid] and
    is passed over; an object is a record. *)
Definition element_step (st : obj * obj) (item : value) : result (obj * obj) :=
  match item with
  | VNull | VUndefined => Throw TypeError
  | VObj props => flatten_step st props
  | _ => Ok st
  end.

Definition flatten_array (jsonData : list value) : result (obj * obj) :=
  forEach element_step jsonData ([], []).

End JsonToXliffArray.

(** ** What the properties are stated with *)

Module Spec.

Import Consolidation JsonToXliff XliffToJson.

(** [p] holds of every character of [s]. *)
Fixpoint all_chars (p : ascii -> bool) (s : string) : bool :=
  match s with
  | EmptyString => true
  | String c rest => p c && all_chars p rest
  end.

(** The five XML metacharacters and the entity each is written as. *)
Definition is_meta (c : ascii) : bool :=
  Ascii.eqb c amp || Ascii.eqb c lt || Ascii.eqb c gt
  || Ascii.eqb c quot || Ascii.eqb c apos.

Definition entity (c : ascii) : string :=
  if Ascii.eqb c amp then "&amp;"
  else if Ascii.eqb c lt then "&lt;"
  else if Ascii.eqb c gt then "&gt;"
  else if Ascii.eqb c quot then "&quot;"
  else if Ascii.eqb c apos then "&apos;"
  else String c EmptyString.

(** One pass over the text, each character written once. *)
Fixpoint escape_each (s : string) : string :=
  match s with
  | EmptyString => EmptyString
  | String c rest => entity c ++ escape_each rest
  end.

(** The canonical textual shape of a UUID: 8-4-4-4-12 hexadecimal digits of
    either case, hyphens between the groups. *)
Definition hex_digit (c : ascii) : bool :=
  let n := nat_of_ascii c in
  (((48 <=? n) && (n <=? 57)) || ((97 <=? n) && (n <=? 102))
   || ((65 <=? n) && (n <=? 70)))%nat.

Definition is_hyphen (c : ascii) : bool := (nat_of_ascii c =? 45)%nat.

Definition upper_case (c : ascii) : bool :=
  let n := nat_of_ascii c in ((65 <=? n) && (n <=? 90))%nat.

(** [true] stands for a hyphen, [false] for a digit. *)
Fixpoint has_shape (shape : list bool) (s : string) : bool :=
  match shape, s with
  | [], EmptyString => true
  | hyphen :: shape', String c rest =>
      (if hyphen then is_hyphen c else hex_digit c) && has_shape shape' rest
  | _, _ => false
  end.

Definition group (n : nat) : list bool := repeat false n.

Definition canonical_shape : list bool :=
  (group 8 ++ [true] ++ group 4 ++ [true] ++ group 4 ++ [true] ++ group 4
   ++ [true] ++ group 12)%list.

Definition canonical_uuid (s : string) : bool := has_shape canonical_shape s.

(** What a qualifying record with identifier text [uuid] adds to the two
    flat mappings. *)
Definition source_entries (uuid : string) (item : obj) : obj :=
  [(title_key uuid, get item "title"); (body_key uuid, get item "body")].

Definition target_entries (uuid : string) : obj :=
  [(title_key uuid, VStr ""); (body_key uuid, VStr "")].

Definition keys_of_id (uuid : string) : list string :=
  [title_key uuid; body_key uuid].

Definition source_of (pairs : list (string * obj)) : obj :=
  flat_map (fun p => source_entries (fst p) (snd p)) pairs.

Definition target_of (pairs : list (string * obj)) : obj :=
  flat_map (fun p => target_entries (fst p)) pairs.

(** The key matches the pattern of the reconstruction. *)
Definition is_match (key : string) : bool :=
  match uuidMatch key with
  | Some _ => true
  | None => false
  end.

(** The identifiers of the matching keys, key after key. *)
Definition matched_ids (ks : list string) : list string :=
  flat_map
    (fun key =>
       match uuidMatch key with
       | Some (uuid, _) => [uuid]
       | None => []
       end)
    ks.

Definition mem (x : string) (l : list string) : bool :=
  existsb (String.eqb x) l.

(** Each text once, where it first occurs. *)
Fixpoint first_occurrences (l : list string) : list string :=
  match l with
  | [] => []
  | x :: rest =>
      x :: filter (fun y => negb (String.eqb x y)) (first_occurrences rest)
  end.

(** The mapping has an entry for the title or for the body of [uuid]. *)
Definition has_entry (flat : obj) (uuid : string) : bool :=
  defined (get flat (uuid ++ "_title")) || defined (get flat (uuid ++ "_body")).

(** The record the reconstruction makes of the identifier [uuid]: the
    values under [uuid_title] and [uuid_body], the empty text in the place
    of a missing or falsy one. *)
Definition grouped (flat : obj) (uuid : string) : obj :=
  [("title", or_else_value (get flat (uuid ++ "_title")) (VStr ""));
   ("body", or_else_value (get flat (uuid ++ "_body")) (VStr ""));
   ("uuid", VStr uuid)].

(** What [JSON.parse] gives holds no [undefined]. *)
Definition parsed (o : obj) : Prop :=
  Forall (fun p => defined (snd p) = true) o.

(** The record of the fallback for the entry [(key, v)] at position
    [index]. *)
Definition fallback_record (now : nat -> Z) (index : nat) (entry : string * value)
  : obj :=
  [("title", VStr (fst entry));
   ("body", snd entry);
   ("uuid", VStr (generated (now index) index))].

Fixpoint indexed_from {A : Type} (index : nat) (l : list A) : list (nat * A) :=
  match l with
  | [] => []
  | x :: rest => (index, x) :: indexed_from (S index) rest
  end.

(** An identifier the reconstruction accepts. *)
Definition accepted_identifier (u : string) : bool :=
  (String.length u =? 36)%nat && all_chars uuid_char u.

(** A record with an accepted identifier and a title and a body that are
    texts and not empty. *)
Definition valid_record (r : obj) : bool :=
  match get r "uuid" with
  | VStr u =>
      match get r "title" with
      | VStr t =>
          match get r "body" with
          | VStr b =>
              accepted_identifier u && negb (String.eqb t "")
              && negb (String.eqb b "")
          | _ => false
          end
      | _ => false
      end
  | _ => false
  end.

(** The identifier of a record, when it is a text. *)
Definition id_text (r : obj) : string :=
  match get r "uuid" with
  | VStr u => u
  | _ => ""
  end.

Definition triple (r : obj) : value * value * value :=
  (get r "uuid", get r "title", get r "body").

(** The records by identifier: a new identifier goes last, a known one
    keeps its place and takes the new record. *)
Fixpoint upsert (pairs : list (string * obj)) (id : string) (item : obj)
  : list (string * obj) :=
  match pairs with
  | [] => [(id, item)]
  | (id', item') :: rest =>
      if String.eqb id' id then (id', item) :: rest
      else (id', item') :: upsert rest id item
  end.

Definition by_identifier (jsonData : list obj) : list (string * obj) :=
  fold_left (fun pairs r => upsert pairs (id_text r) r) jsonData [].

(** The two entries per pair, with the values [f] and [g] take from the
    record. *)
Definition flat_of (f g : obj -> value) (pairs : list (string * obj)) : obj :=
  flat_map
    (fun p => [(title_key (fst p), f (snd p)); (body_key (fst p), g (snd p))])
    pairs.

(** A pair whose identifier is that of its record, a valid one. *)
Definition well_formed (p : string * obj) : Prop :=
  valid_record (snd p) = true /\ id_text (snd p) = fst p.

(** The record the reconstruction gives back for a pair. *)
Definition rebuilt (p : string * obj) : obj :=
  [("title", get (snd p) "title");
   ("body", get (snd p) "body");
   ("uuid", VStr (fst p))].

(** A translation unit before it is written: its texts, unescaped. *)
Record trans_unit : Type := {
  unit_id : string;
  unit_source : string;
  unit_target : string;
  unit_note : string
}.

(** The unit as XML text, every text escaped character by character. *)
Definition render_unit (u : trans_unit) : string :=
  "    <trans-unit id=" ++ dq ++ escape_each (unit_id u) ++ dq ++ ">" ++ nl
  ++ "      <source>" ++ escape_each (unit_source u) ++ "</source>" ++ nl
  ++ "      <target>" ++ escape_each (unit_target u) ++ "</target>" ++ nl
  ++ "      <note>" ++ escape_each (unit_note u) ++ "</note>" ++ nl
  ++ "    </trans-unit>" ++ nl.

Definition emit (st : emitted) (u : trans_unit) : emitted :=
  {| transUnits := transUnits st ++ render_unit u;
     unitCount := S (unitCount st);
     warnings := warnings st |}.

(** The text a target value stands for: itself when it is a text, nothing
    when it is missing or falsy; no text otherwise. *)
Definition target_text (m : member) : option string :=
  match m with
  | Data (VStr s) => Some s
  | Data v => if truthy v then None else Some ""
  | Builtin => None
  end.

Definition missing_target_warning (uuid : string) : string :=
  "Warning: No target translation found for UUID: " ++ uuid.

(** The identifier is a text, or the record carries none. *)
Definition text_identifier (item : obj) : Prop :=
  truthy (get item "uuid") = false \/ exists u, get item "uuid" = VStr u.

(** The values of the fields are texts, missing or falsy. *)
Definition text_fields (fields : list string) (item : obj) : Prop :=
  forall f, In f fields -> exists s, target_text (read item f) = Some s.

(** The characters that would open or close markup or an attribute. *)
Definition raw_markup (c : ascii) : bool :=
  Ascii.eqb c lt || Ascii.eqb c gt || Ascii.eqb c quot || Ascii.eqb c apos.

(** The target record a source identifier [u] is paired with: the last
    record of the target array that carries it. *)
Definition carries (u : value) (item : obj) : bool :=
  truthy (get item "uuid") && same_value_zero (get item "uuid") u.

Definition last_target (targetData : list obj) (u : value) : option obj :=
  find (carries u) (rev targetData).

(** The units of a pair of records, field after field. *)
Definition unit_of_field (sourceItem targetItem : obj) (fieldName : string)
  : list trans_unit :=
  match read sourceItem fieldName with
  | Data (VStr text) =>
      if trims_to_empty text then []
      else
        [ {| unit_id := id_text sourceItem ++ "_" ++ fieldName;
             unit_source := text;
             unit_target :=
               match target_text (read targetItem fieldName) with
               | Some target => target
               | None => ""
               end;
             unit_note := fieldName ++ " for UUID: " ++ id_text sourceItem |} ]
  | _ => []
  end.

Definition units_of_pair (fields : list string) (sourceItem targetItem : obj)
  : list trans_unit :=
  flat_map (unit_of_field sourceItem targetItem) fields.

(** The units and the warnings of a run, source record after source
    record. *)
Definition units_of (fields : list string) (targetData sourceData : list obj)
  : list trans_unit :=
  flat_map
    (fun sourceItem =>
       if truthy (get sourceItem "uuid") then
         match last_target targetData (get sourceItem "uuid") with
         | Some targetItem => units_of_pair fields sourceItem targetItem
         | None => []
         end
       else [])
    sourceData.

Definition warnings_of (targetData sourceData : list obj) : list string :=
  flat_map
    (fun sourceItem =>
       if truthy (get sourceItem "uuid") then
         match last_target targetData (get sourceItem "uuid") with
         | Some _ => []
         | None => [missing_target_warning (id_text sourceItem)]
         end
       else [])
    sourceData.

Fixpoint render_units (units : list trans_unit) : string :=
  match units with
  | [] => EmptyString
  | u :: rest => render_unit u ++ render_units rest
  end.

(** The state of the loop after more units and warnings. *)
Definition extend (st : emitted) (units : list trans_unit) (lines : list string)
  : emitted :=
  {| transUnits := transUnits st ++ render_units units;
     unitCount := unitCount st + List.length units;
     warnings := (warnings st ++ lines)%list |}.

(** The entries [(identifier text, record)] by identifier, as [upsert]
    collects them. *)
Definition collect (entries : list (string * obj)) : list (string * obj) :=
  fold_left (fun pairs e => upsert pairs (fst e) (snd e)) entries [].

(** A value a template literal always prints. *)
Definition primitive (v : value) : bool :=
  match v with
  | VArr _ | VObj _ => false
  | _ => true
  end.

(** An element of a parsed array that is not [null] and, when it is a
    qualifying record, has a text, a number or a boolean as identifier. *)
Definition flattens (v : value) : bool :=
  match v with
  | VNull | VUndefined => false
  | VObj item => negb (qualifies item) || primitive (get item "uuid")
  | _ => true
  end.

End Spec.

Import Consolidation JsonToXliff XliffToJson Spec.

(** * Properties *)

(** ** Strings *)

Section Strings.

Lemma append_nil_r (s : string) : s ++ "" = s.
Proof. induction s as [|c s IH]; simpl; [reflexivity | now rewrite IH]. Qed.

Lemma append_assoc (a b c : string) : (a ++ b) ++ c = a ++ (b ++ c).
Proof. induction a as [|x a IH]; simpl; [reflexivity | now rewrite IH]. Qed.

Lemma length_append (a b : string) :
  String.length (a ++ b) = String.length a + String.length b.
Proof. induction a as [|x a IH]; simpl; [reflexivity | now rewrite IH]. Qed.

Lemma chars_append (a b : string) :
  list_ascii_of_string (a ++ b)
  = (list_ascii_of_string a ++ list_ascii_of_string b)%list.
Proof. induction a as [|x a IH]; simpl; [reflexivity | now rewrite IH]. Qed.

Lemma chars_inj (a b : string) :
  list_ascii_of_string a = list_ascii_of_string b -> a = b.
Proof.
  intros H.
  rewrite <- (string_of_list_ascii_of_string a),
          <- (string_of_list_ascii_of_string b).
  now rewrite H.
Qed.

Lemma append_cancel_r (a b s : string) : a ++ s = b ++ s -> a = b.
Proof.
  intros H. apply chars_inj.
  apply (f_equal list_ascii_of_string) in H.
  rewrite !chars_append in H.
  now apply app_inv_tail in H.
Qed.

Lemma append_cancel_l (s a b : string) : s ++ a = s ++ b -> a = b.
Proof.
  induction s as [|c s IH]; simpl; intros H; [assumption|].
  injection H as H. now apply IH.
Qed.

(** Two texts that end in different characters differ. *)
Lemma append_last_differs (a b s t : string) (x y : ascii) :
  x <> y -> a ++ s ++ String x "" <> b ++ t ++ String y "".
Proof.
  intros Hxy H. apply Hxy.
  apply (f_equal list_ascii_of_string) in H.
  rewrite <- !append_assoc, !chars_append in H. simpl in H.
  now apply app_inj_tail in H.
Qed.

End Strings.

(** ** [escapeXml] *)

Section Escaping.

Lemma replace_all_app (c : ascii) (by_ a b : string) :
  replace_all c by_ (a ++ b) = replace_all c by_ a ++ replace_all c by_ b.
Proof.
  induction a as [|x a IH]; simpl; [reflexivity|].
  destruct (Ascii.eqb x c); simpl; rewrite IH; [|reflexivity].
  now rewrite append_assoc.
Qed.

Lemma replace_chain_cons (c : ascii) (s : string) :
  replace_chain (String c s) = entity c ++ replace_chain s.
Proof.
  unfold replace_chain, entity. simpl.
  destruct (Ascii.eqb_spec c amp) as [->|Hamp]; [reflexivity|].
  simpl.
  destruct (Ascii.eqb_spec c lt) as [->|Hlt]; [reflexivity|].
  simpl.
  destruct (Ascii.eqb_spec c gt) as [->|Hgt]; [reflexivity|].
  simpl.
  destruct (Ascii.eqb_spec c quot) as [->|Hquot]; [reflexivity|].
  simpl.
  destruct (Ascii.eqb_spec c apos) as [->|Hapos]; reflexivity.
Qed.

Lemma replace_chain_escape_each (s : string) :
  replace_chain s = escape_each s.
Proof.
  induction s as [|c s IH]; [reflexivity|].
  rewrite replace_chain_cons. simpl. now rewrite IH.
Qed.

Lemma escape_each_plain (s : string) :
  all_chars (fun c => negb (is_meta c)) s = true -> escape_each s = s.
Proof.
  induction s as [|c s IH]; simpl; [reflexivity|].
  intros H. apply andb_prop in H as [Hc Hs].
  rewrite (IH Hs). unfold entity. unfold is_meta in Hc.
  apply negb_true_iff in Hc.
  repeat (apply orb_false_elim in Hc as [Hc ?]).
  now repeat match goal with H : _ = false |- _ => rewrite H; clear H end.
Qed.

Lemma escapeXml_string (s : string) :
  escapeXml (Data (VStr s)) = Ok (replace_chain s).
Proof.
  unfold escapeXml. simpl.
  destruct (String.eqb_spec s "") as [->|_]; reflexivity.
Qed.

(** C9.  [escapeXml] returns on every string: the text with [&], [<], [>],
    the double quote and the apostrophe replaced in that order, which writes
    each character of the input exactly once (an entity for a metacharacter,
    itself otherwise).  A text with none of the five comes back unchanged,
    [a & b < c] becomes [a &amp; b &lt; c], and the empty text and
    [undefined] give the empty text. *)
Theorem escapeXml_total_ordered :
  (forall s,
      escapeXml (Data (VStr s))
      = Ok (replace_all apos "&apos;"
              (replace_all quot "&quot;"
                 (replace_all gt "&gt;"
                    (replace_all lt "&lt;"
                       (replace_all amp "&amp;" s))))))
  /\ (forall s, escapeXml (Data (VStr s)) = Ok (escape_each s))
  /\ (forall s,
         all_chars (fun c => negb (is_meta c)) s = true ->
         escapeXml (Data (VStr s)) = Ok s)
  /\ escapeXml (Data (VStr "a & b < c")) = Ok "a &amp; b &lt; c"
  /\ escapeXml (Data (VStr "")) = Ok ""
  /\ escapeXml (Data VUndefined) = Ok "".
Proof.
  split; [exact escapeXml_string|].
  split; [intros s; now rewrite escapeXml_string, replace_chain_escape_each|].
  split.
  - intros s H.
    now rewrite escapeXml_string, replace_chain_escape_each, escape_each_plain.
  - repeat split; reflexivity.
Qed.

Lemma escapeXml_total_ordered_witness :
  escapeXml (Data (VStr "title for UUID: 973fcb7a")) = Ok "title for UUID: 973fcb7a".
Proof.
  apply (proj1 (proj2 (proj2 escapeXml_total_ordered))).
  reflexivity.
Defined.

End Escaping.

(** ** The key pattern of the reconstruction *)

Section KeyPattern.

Lemma match_class_sound (n : nat) : forall s u after,
  match_class n s = Some (u, after) ->
  s = u ++ after /\ String.length u = n /\ all_chars uuid_char u = true.
Proof.
  induction n as [|n IH]; simpl; intros s u after H.
  - injection H as <- <-. repeat split.
  - destruct s as [|c rest]; [discriminate|].
    destruct (uuid_char c) eqn:Hc; [|discriminate].
    destruct (match_class n rest) as [[u' after']|] eqn:Hm; [|discriminate].
    injection H as <- <-.
    destruct (IH _ _ _ Hm) as (-> & <- & Hall).
    simpl. now rewrite Hc, Hall.
Qed.

Lemma match_class_complete (u after : string) :
  all_chars uuid_char u = true ->
  match_class (String.length u) (u ++ after) = Some (u, after).
Proof.
  induction u as [|c u IH]; simpl; intros H; [reflexivity|].
  apply andb_prop in H as [Hc Hu].
  now rewrite Hc, (IH Hu).
Qed.

Lemma uuidMatch_iff (key uuid field : string) :
  uuidMatch key = Some (uuid, field) <->
  key = uuid ++ "_" ++ field
  /\ String.length uuid = 36
  /\ all_chars uuid_char uuid = true
  /\ (field = "title" \/ field = "body").
Proof.
  unfold uuidMatch. split.
  - destruct (match_class 36 key) as [[u after]|] eqn:Hm; [|discriminate].
    apply match_class_sound in Hm as (-> & Hlen & Hall).
    destruct (String.eqb_spec after "_title") as [->|_].
    { intros H. injection H as <- <-. auto. }
    destruct (String.eqb_spec after "_body") as [->|_]; [|discriminate].
    intros H. injection H as <- <-. auto.
  - intros (-> & Hlen & Hall & Hfield).
    rewrite <- Hlen, (match_class_complete _ _ Hall).
    destruct Hfield as [->| ->]; reflexivity.
Qed.

Lemma uuidMatch_title_key (uuid : string) :
  String.length uuid = 36 -> all_chars uuid_char uuid = true ->
  uuidMatch (uuid ++ "_title") = Some (uuid, "title").
Proof. intros Hlen Hall. apply uuidMatch_iff. auto. Qed.

Lemma uuidMatch_body_key (uuid : string) :
  String.length uuid = 36 -> all_chars uuid_char uuid = true ->
  uuidMatch (uuid ++ "_body") = Some (uuid, "body").
Proof. intros Hlen Hall. apply uuidMatch_iff. auto. Qed.

Lemma has_shape_length (shape : list bool) : forall s,
  has_shape shape s = true -> String.length s = List.length shape.
Proof.
  induction shape as [|h shape IH]; intros [|c s]; simpl; try discriminate.
  - reflexivity.
  - intros H. apply andb_prop in H as [_ H]. now rewrite (IH _ H).
Qed.

Lemma lower_hex_is_uuid_char (c : ascii) :
  hex_digit c = true -> upper_case c = false -> uuid_char c = true.
Proof.
  unfold hex_digit, upper_case, uuid_char.
  generalize (nat_of_ascii c). intros n H U.
  repeat rewrite ?orb_true_iff, ?andb_true_iff, ?Nat.leb_le, ?Nat.eqb_eq in *.
  rewrite andb_false_iff, !Nat.leb_gt in U. lia.
Qed.

Lemma has_shape_uuid_chars (shape : list bool) : forall s,
  has_shape shape s = true ->
  all_chars (fun c => negb (upper_case c)) s = true ->
  all_chars uuid_char s = true.
Proof.
  induction shape as [|h shape IH]; intros [|c s]; simpl; try discriminate.
  - reflexivity.
  - intros H L.
    apply andb_prop in H as [Hc H]. apply andb_prop in L as [Lc L].
    rewrite (IH _ H L), andb_true_r.
    apply negb_true_iff in Lc.
    destruct h; [|now apply lower_hex_is_uuid_char].
    unfold is_hyphen in Hc. unfold uuid_char.
    rewrite Hc. now rewrite orb_true_r.
Qed.

(** C3, as the code has it.  A key matches, with groups [uuid] and [field],
    exactly when it is [uuid_field] with [field] one of [title] and [body]
    and [uuid] made of 36 characters each of which is a digit, a lower-case
    letter from [a] to [f] or a hyphen, wherever the hyphens stand.  Every
    canonical UUID written in lower case is of that kind. *)
Theorem uuidMatch_accepts_36_lowercase_hex_or_hyphen :
  (forall key uuid field,
      uuidMatch key = Some (uuid, field) <->
      key = uuid ++ "_" ++ field
      /\ String.length uuid = 36
      /\ all_chars uuid_char uuid = true
      /\ (field = "title" \/ field = "body"))
  /\ (forall uuid,
         canonical_uuid uuid = true ->
         all_chars (fun c => negb (upper_case c)) uuid = true ->
         uuidMatch (uuid ++ "_title") = Some (uuid, "title")
         /\ uuidMatch (uuid ++ "_body") = Some (uuid, "body")).
Proof.
  split; [exact uuidMatch_iff|].
  intros uuid Hshape Hlower.
  pose proof (has_shape_length _ _ Hshape) as Hlen.
  pose proof (has_shape_uuid_chars _ _ Hshape Hlower) as Hall.
  split; [now apply uuidMatch_title_key | now apply uuidMatch_body_key].
Qed.

Lemma uuidMatch_accepts_witness :
  uuidMatch "973fcb7a-154a-46f7-b7c6-134a16a46ea3_title"
  = Some ("973fcb7a-154a-46f7-b7c6-134a16a46ea3", "title").
Proof.
  apply (proj2 uuidMatch_accepts_36_lowercase_hex_or_hyphen
           "973fcb7a-154a-46f7-b7c6-134a16a46ea3");
    reflexivity.
Defined.

(** C3 as stated fails in both directions: a canonical UUID in upper case
    is not recognised, and 36 characters of the class that are no UUID (no
    hyphen, or nothing but hyphens) are. *)
Lemma uuidMatch_not_canonical_shape :
  (canonical_uuid "973FCB7A-154A-46F7-B7C6-134A16A46EA3" = true
   /\ uuidMatch "973FCB7A-154A-46F7-B7C6-134A16A46EA3_title" = None)
  /\ (canonical_uuid "973fcb7a154a46f7b7c6134a16a46ea30000" = false
      /\ uuidMatch "973fcb7a154a46f7b7c6134a16a46ea30000_title"
         = Some ("973fcb7a154a46f7b7c6134a16a46ea30000", "title"))
  /\ (canonical_uuid "------------------------------------" = false
      /\ uuidMatch "------------------------------------_body"
         = Some ("------------------------------------", "body")).
Proof. repeat split. Qed.

End KeyPattern.

(** ** Loops and objects *)

Section Loops.

Lemma forEach_app {A S : Type} (f : S -> A -> result S) (l1 l2 : list A) (s : S) :
  forEach f (l1 ++ l2) s = bind (forEach f l1 s) (forEach f l2).
Proof.
  revert s. induction l1 as [|x l1 IH]; intros s; simpl; [reflexivity|].
  destruct (f s x) as [s'|e]; simpl; [apply IH | reflexivity].
Qed.

Lemma obj_set_fresh (o : obj) (k : string) (v : value) :
  ~ In k (keys o) -> obj_set o k v = (o ++ [(k, v)])%list.
Proof.
  induction o as [|[k' v'] o IH]; simpl; intros Hk; [reflexivity|].
  destruct (String.eqb_spec k' k) as [->|_]; [tauto|].
  rewrite IH; [reflexivity | tauto].
Qed.

Lemma keys_app (o1 o2 : obj) : keys (o1 ++ o2)%list = (keys o1 ++ keys o2)%list.
Proof. apply map_app. Qed.

End Loops.

(** ** The flat keys *)

Section FlatKeys.

Lemma title_key_inj (a b : string) : title_key a = title_key b -> a = b.
Proof. apply append_cancel_r. Qed.

Lemma body_key_inj (a b : string) : body_key a = body_key b -> a = b.
Proof. apply append_cancel_r. Qed.

Lemma title_key_not_body_key (a b : string) : title_key a <> body_key b.
Proof.
  unfold title_key, body_key.
  change "_title" with ("_titl" ++ String "e" "").
  change "_body" with ("_bod" ++ String "y" "").
  apply append_last_differs. discriminate.
Qed.

Lemma keys_source_of (pairs : list (string * obj)) :
  keys (source_of pairs) = flat_map keys_of_id (map fst pairs).
Proof.
  induction pairs as [|[id item] pairs IH]; simpl; [reflexivity|].
  now rewrite <- IH.
Qed.

Lemma keys_target_of (pairs : list (string * obj)) :
  keys (target_of pairs) = flat_map keys_of_id (map fst pairs).
Proof.
  induction pairs as [|[id item] pairs IH]; simpl; [reflexivity|].
  now rewrite <- IH.
Qed.

Lemma in_keys_of_ids (k : string) (ids : list string) :
  In k (flat_map keys_of_id ids) ->
  exists id, In id ids /\ (k = title_key id \/ k = body_key id).
Proof.
  rewrite in_flat_map. intros (id & Hid & Hk). exists id. split; [assumption|].
  simpl in Hk. intuition.
Qed.

Lemma title_key_fresh (id : string) (ids : list string) :
  ~ In id ids -> ~ In (title_key id) (flat_map keys_of_id ids).
Proof.
  intros Hid Hk. apply in_keys_of_ids in Hk as (id' & Hin & [H|H]).
  - apply title_key_inj in H. now subst.
  - now apply title_key_not_body_key in H.
Qed.

Lemma body_key_fresh (id : string) (ids : list string) :
  ~ In id ids -> ~ In (body_key id) (flat_map keys_of_id ids).
Proof.
  intros Hid Hk. apply in_keys_of_ids in Hk as (id' & Hin & [H|H]).
  - symmetry in H. now apply title_key_not_body_key in H.
  - apply body_key_inj in H. now subst.
Qed.

Lemma keys_of_ids_NoDup (ids : list string) :
  NoDup ids -> NoDup (flat_map keys_of_id ids).
Proof.
  induction 1 as [|id ids Hid _ IH]; simpl; [constructor|].
  constructor.
  - simpl. intros [H|H].
    + symmetry in H. now apply title_key_not_body_key in H.
    + now apply title_key_fresh in H.
  - constructor; [now apply body_key_fresh | assumption].
Qed.

Lemma keys_of_ids_length (ids : list string) :
  List.length (flat_map keys_of_id ids) = 2 * List.length ids.
Proof. induction ids as [|id ids IH]; simpl; [reflexivity | rewrite IH; lia]. Qed.

End FlatKeys.

(** ** The flattening loop *)

Section Flattening.

Lemma flatten_step_skip (st : obj * obj) (item : obj) :
  qualifies item = false -> flatten_step st item = Ok st.
Proof. intros H. destruct st as [sourceJson targetJson]. simpl. now rewrite H. Qed.

Lemma qualifies_false (item : obj) :
  truthy (get item "uuid") = false \/ truthy (get item "title") = false
  \/ truthy (get item "body") = false ->
  qualifies item = false.
Proof.
  unfold qualifies. intros [H|[H|H]]; rewrite H;
    now rewrite ?andb_false_r, ?andb_false_l.
Qed.

(** C10.  A record whose [uuid], [title] or [body] is falsy (missing, the
    empty string, [null], [false] or zero) adds nothing: both mappings are
    what they are with the record taken out of the array, and alone it
    leaves them empty. *)
Theorem flatten_skips_falsy_fields (before after : list obj) (item : obj) :
  truthy (get item "uuid") = false \/ truthy (get item "title") = false
  \/ truthy (get item "body") = false ->
  flatten (before ++ item :: after) = flatten (before ++ after)
  /\ flatten [item] = Ok ([], []).
Proof.
  intros H. apply qualifies_false in H.
  unfold flatten. split.
  - rewrite !forEach_app.
    destruct (forEach flatten_step before ([], [])) as [st|e]; simpl;
      [|reflexivity].
    now rewrite flatten_step_skip.
  - simpl. now rewrite H.
Qed.

Lemma flatten_skips_falsy_fields_witness :
  flatten
    ([ [("uuid", VStr "a"); ("title", VStr "T"); ("body", VStr "B")] ]
     ++ [("uuid", VStr "b"); ("title", VStr "U"); ("body", VStr "")]
     :: [ [("uuid", VStr "c"); ("title", VStr "V"); ("body", VStr "C")] ])
  = flatten
      ([ [("uuid", VStr "a"); ("title", VStr "T"); ("body", VStr "B")] ]
       ++ [ [("uuid", VStr "c"); ("title", VStr "V"); ("body", VStr "C")] ]).
Proof.
  apply flatten_skips_falsy_fields.
  right. right. reflexivity.
Defined.

Lemma flatten_step_fresh (pairs : list (string * obj)) (item : obj) (id : string) :
  qualifies item = true ->
  to_string (get item "uuid") = Ok id ->
  ~ In id (map fst pairs) ->
  flatten_step (source_of pairs, target_of pairs) item
  = Ok (source_of (pairs ++ [(id, item)]), target_of (pairs ++ [(id, item)])).
Proof.
  intros Hq Hid Hfresh. simpl. rewrite Hq, Hid. simpl.
  unfold source_of, target_of. rewrite !flat_map_app. simpl.
  fold (source_of pairs) (target_of pairs).
  assert (Hs : forall v w,
             obj_set (obj_set (source_of pairs) (title_key id) v) (body_key id) w
             = (source_of pairs ++ [(title_key id, v); (body_key id, w)])%list).
  { intros v w.
    rewrite (obj_set_fresh (source_of pairs)).
    - rewrite obj_set_fresh; [now rewrite <- app_assoc|].
      rewrite keys_app, keys_source_of, in_app_iff. simpl.
      intros [H|[H|[]]].
      + now apply body_key_fresh in H.
      + now apply title_key_not_body_key in H.
    - rewrite keys_source_of. now apply title_key_fresh. }
  assert (Ht : forall v w,
             obj_set (obj_set (target_of pairs) (title_key id) v) (body_key id) w
             = (target_of pairs ++ [(title_key id, v); (body_key id, w)])%list).
  { intros v w.
    rewrite (obj_set_fresh (target_of pairs)).
    - rewrite obj_set_fresh; [now rewrite <- app_assoc|].
      rewrite keys_app, keys_target_of, in_app_iff. simpl.
      intros [H|[H|[]]].
      + now apply body_key_fresh in H.
      + now apply title_key_not_body_key in H.
    - rewrite keys_target_of. now apply title_key_fresh. }
  now rewrite Hs, Ht.
Qed.

Lemma forEach_flatten_distinct (jsonData : list obj) :
  forall (ids : list string) (pairs : list (string * obj)),
    Forall2 (fun item id => to_string (get item "uuid") = Ok id)
      (filter qualifies jsonData) ids ->
    NoDup (map fst pairs ++ ids) ->
    forEach flatten_step jsonData (source_of pairs, target_of pairs)
    = Ok (source_of (pairs ++ combine ids (filter qualifies jsonData)),
          target_of (pairs ++ combine ids (filter qualifies jsonData))).
Proof.
  induction jsonData as [|item rest IH]; intros ids pairs Hids Hnd;
    cbn [forEach filter] in *.
  - inversion Hids; subst. simpl. now rewrite !app_nil_r.
  - destruct (qualifies item) eqn:Hq.
    + inversion Hids as [|? id ? ids' Hid Hrest]; subst.
      assert (Hfresh : ~ In id (map fst pairs)).
      { apply NoDup_remove_2 in Hnd. rewrite in_app_iff in Hnd. tauto. }
      rewrite (flatten_step_fresh pairs item id Hq Hid Hfresh). simpl.
      rewrite (IH ids' (pairs ++ [(id, item)])%list Hrest).
      * now rewrite <- !app_assoc.
      * rewrite map_app. simpl. now rewrite <- app_assoc.
    + rewrite flatten_step_skip by assumption. simpl. now apply IH.
Qed.

(** C4, as the code has it.  When the records with a truthy [uuid], [title]
    and [body] have pairwise different identifier texts [ids], the source
    mapping holds, record after record in the order of the array, the entry
    [id_title] with the record's title and then [id_body] with its body,
    the target mapping the same keys with empty texts, and the keys of each
    are all different and twice as many as these records. *)
Theorem flatten_distinct_identifiers (jsonData : list obj) (ids : list string) :
  Forall2 (fun item id => to_string (get item "uuid") = Ok id)
    (filter qualifies jsonData) ids ->
  NoDup ids ->
  exists sourceJson targetJson,
    flatten jsonData = Ok (sourceJson, targetJson)
    /\ sourceJson = source_of (combine ids (filter qualifies jsonData))
    /\ targetJson = flat_map target_entries ids
    /\ keys sourceJson = flat_map keys_of_id ids
    /\ keys targetJson = flat_map keys_of_id ids
    /\ NoDup (keys sourceJson)
    /\ List.length (keys sourceJson) = 2 * List.length (filter qualifies jsonData).
Proof.
  intros Hids Hnd.
  pose proof (Forall2_length Hids) as Hlen.
  assert (Hfst : map fst (combine ids (filter qualifies jsonData)) = ids).
  { clear Hids Hnd. revert Hlen. generalize (filter qualifies jsonData).
    induction ids as [|id ids IH]; intros [|x l]; simpl; try discriminate;
      intros H; [reflexivity | f_equal; apply IH; lia]. }
  exists (source_of (combine ids (filter qualifies jsonData))),
         (flat_map target_entries ids).
  assert (Htgt : target_of (combine ids (filter qualifies jsonData))
                 = flat_map target_entries ids).
  { unfold target_of. rewrite <- Hfst at 2. now rewrite flat_map_concat_map,
      flat_map_concat_map, map_map. }
  split.
  { pose proof (forEach_flatten_distinct jsonData ids [] Hids Hnd) as H.
    change (source_of []) with (@nil (string * value)) in H.
    change (target_of []) with (@nil (string * value)) in H.
    cbn [app] in H. unfold flatten. rewrite <- Htgt. exact H. }
  split; [reflexivity|]. split; [reflexivity|].
  rewrite <- Htgt, keys_source_of, keys_target_of, Hfst.
  split; [reflexivity|]. split; [reflexivity|].
  split; [now apply keys_of_ids_NoDup|].
  rewrite keys_of_ids_length. lia.
Qed.

Lemma flatten_distinct_identifiers_witness :
  exists sourceJson targetJson,
    flatten
      [ [("uuid", VStr "a"); ("title", VStr "T"); ("body", VStr "B")];
        [("uuid", VStr "b"); ("title", VStr ""); ("body", VStr "skipped")];
        [("uuid", VNum "7"); ("title", VStr "U"); ("body", VStr "C")] ]
    = Ok (sourceJson, targetJson)
    /\ sourceJson
       = [("a_title", VStr "T"); ("a_body", VStr "B");
          ("7_title", VStr "U"); ("7_body", VStr "C")]
    /\ targetJson
       = [("a_title", VStr ""); ("a_body", VStr "");
          ("7_title", VStr ""); ("7_body", VStr "")].
Proof.
  destruct (flatten_distinct_identifiers
              [ [("uuid", VStr "a"); ("title", VStr "T"); ("body", VStr "B")];
                [("uuid", VStr "b"); ("title", VStr ""); ("body", VStr "skipped")];
                [("uuid", VNum "7"); ("title", VStr "U"); ("body", VStr "C")] ]
              ["a"; "7"])
    as (sourceJson & targetJson & H & Hs & Ht & _).
  - simpl. repeat constructor.
  - repeat constructor; simpl; intuition discriminate.
  - exists sourceJson, targetJson. repeat split; assumption.
Defined.

(** C4 as stated fails when two qualifying records carry the same
    identifier: the second overwrites the entries of the first, and two
    keys stand for two records. *)
Lemma flatten_duplicate_identifier :
  let jsonData :=
    [ [("uuid", VStr "a"); ("title", VStr "T1"); ("body", VStr "B1")];
      [("uuid", VStr "a"); ("title", VStr "T2"); ("body", VStr "B2")] ] in
  flatten jsonData
  = Ok ([("a_title", VStr "T2"); ("a_body", VStr "B2")],
        [("a_title", VStr ""); ("a_body", VStr "")])
  /\ List.length (filter qualifies jsonData) = 2
  /\ ~ (forall sourceJson targetJson,
           flatten jsonData = Ok (sourceJson, targetJson) ->
           List.length (keys sourceJson)
           = 2 * List.length (filter qualifies jsonData)).
Proof.
  simpl. repeat split.
  intros H. specialize (H _ _ eq_refl). discriminate.
Qed.

End Flattening.

(** ** The reconstruction loop *)

Section Grouping.

Variable flat : obj.

Lemma mem_In (x : string) (l : list string) : mem x l = true <-> In x l.
Proof.
  unfold mem. rewrite existsb_exists. split.
  - intros (y & Hy & E). apply String.eqb_eq in E. now subst.
  - intros H. exists x. split; [assumption | apply String.eqb_refl].
Qed.

Lemma filter_filter {A : Type} (p q : A -> bool) (l : list A) :
  filter p (filter q l) = filter (fun x => q x && p x) l.
Proof.
  induction l as [|x l IH]; simpl; [reflexivity|].
  destruct (q x); simpl; [destruct (p x)|]; now rewrite IH.
Qed.

(** The identifiers the loop makes a record of, from a state in which
    [seen] are processed. *)
Lemma fold_group_step (ks : list string) :
  forall (transformedData : list obj) (seen : list string),
    fst (fold_left (group_step flat) ks (transformedData, seen))
    = (transformedData
       ++ map (grouped flat)
            (filter (fun u => negb (mem u seen))
               (first_occurrences (filter (has_entry flat) (matched_ids ks)))))%list.
Proof.
  induction ks as [|key ks IH]; intros td seen; simpl.
  - now rewrite app_nil_r.
  - unfold matched_ids in *. simpl.
    destruct (uuidMatch key) as [[uuid field]|]; simpl; [|apply IH].
    fold (mem uuid seen). fold (has_entry flat uuid).
    destruct (mem uuid seen) eqn:Hseen.
    + rewrite IH. f_equal. f_equal.
      destruct (has_entry flat uuid); [|reflexivity].
      simpl. rewrite Hseen. simpl. rewrite filter_filter.
      apply filter_ext_in. intros y _.
      destruct (String.eqb_spec uuid y) as [<-|_]; [now rewrite Hseen | reflexivity].
    + destruct (has_entry flat uuid); [|apply IH].
      rewrite IH. simpl. rewrite Hseen. simpl.
      rewrite <- app_assoc. simpl. f_equal. f_equal. f_equal.
      rewrite filter_filter. apply filter_ext. intros y.
      unfold mem. simpl. rewrite (String.eqb_sym y uuid).
      now rewrite negb_orb.
Qed.

Lemma transformedData_groups :
  fst (fold_left (group_step flat) (keys flat) ([], []))
  = map (grouped flat)
      (first_occurrences (filter (has_entry flat) (matched_ids (keys flat)))).
Proof.
  rewrite fold_group_step. simpl. f_equal.
  apply forallb_filter_id. now apply forallb_forall.
Qed.

End Grouping.

Section Reconstruction.

Lemma first_occurrences_In (x : string) (l : list string) :
  In x (first_occurrences l) <-> In x l.
Proof.
  induction l as [|y l IH]; simpl; [tauto|].
  rewrite filter_In, IH, negb_true_iff, String.eqb_neq.
  destruct (string_dec y x); intuition.
Qed.

Lemma first_occurrences_NoDup (l : list string) : NoDup (first_occurrences l).
Proof.
  induction l as [|y l IH]; simpl; constructor.
  - rewrite filter_In, negb_true_iff, String.eqb_neq. tauto.
  - now apply NoDup_filter.
Qed.

Lemma first_occurrences_id (l : list string) :
  NoDup l -> first_occurrences l = l.
Proof.
  induction 1 as [|x l Hx _ IH]; simpl; [reflexivity|].
  rewrite IH. f_equal. apply forallb_filter_id, forallb_forall.
  intros y Hy. apply negb_true_iff, String.eqb_neq. intros <-. tauto.
Qed.

Lemma matched_ids_In (uuid : string) (ks : list string) :
  In uuid (matched_ids ks) <->
  exists key field, In key ks /\ uuidMatch key = Some (uuid, field).
Proof.
  unfold matched_ids. rewrite in_flat_map. split.
  - intros (key & Hkey & Hin). exists key.
    destruct (uuidMatch key) as [[u field]|]; [|contradiction].
    destruct Hin as [->|[]]. now exists field.
  - intros (key & field & Hkey & Hm). exists key. rewrite Hm. simpl. auto.
Qed.

Lemma matched_ids_none (ks : list string) :
  existsb is_match ks = false -> matched_ids ks = [].
Proof.
  unfold matched_ids, is_match.
  induction ks as [|key ks IH]; simpl; [reflexivity|].
  destruct (uuidMatch key) as [[uuid field]|]; simpl; [discriminate|assumption].
Qed.

Lemma matched_ids_some (ks : list string) :
  existsb is_match ks = true -> matched_ids ks <> [].
Proof.
  unfold matched_ids, is_match.
  induction ks as [|key ks IH]; simpl; [discriminate|].
  destruct (uuidMatch key) as [[uuid field]|]; simpl; [discriminate|assumption].
Qed.

Lemma lookup_In_keys (k : string) (o : obj) :
  In k (keys o) -> exists v, lookup k o = Some v /\ In (k, v) o.
Proof.
  induction o as [|[k' v'] o IH]; simpl; [tauto|].
  destruct (String.eqb_spec k' k) as [->|Hne].
  - intros _. exists v'. auto.
  - intros [H|H]; [contradiction|].
    destruct (IH H) as (v & Hv & Hin). exists v. auto.
Qed.

Lemma lookup_NoDup (k : string) (v : value) (o : obj) :
  NoDup (keys o) -> In (k, v) o -> lookup k o = Some v.
Proof.
  induction o as [|[k' v'] o IH]; simpl; [tauto|].
  intros Hnd [H|H].
  - injection H as -> ->. now rewrite String.eqb_refl.
  - inversion Hnd as [|? ? Hk' Hnd']; subst.
    destruct (String.eqb_spec k' k) as [->|_]; [|now apply IH].
    exfalso. apply Hk'. now apply (in_map fst) in H.
Qed.

Lemma parsed_defined (o : obj) (k : string) :
  parsed o -> In k (keys o) -> defined (get o k) = true.
Proof.
  intros Hp Hk. unfold get.
  destruct (lookup_In_keys k o Hk) as (v & -> & Hin).
  unfold parsed in Hp. rewrite Forall_forall in Hp. exact (Hp _ Hin).
Qed.

Lemma parsed_has_entry (o : obj) :
  parsed o ->
  filter (has_entry o) (matched_ids (keys o)) = matched_ids (keys o).
Proof.
  intros Hp. apply forallb_filter_id, forallb_forall. intros uuid Hin.
  apply matched_ids_In in Hin as (key & field & Hkey & Hm).
  apply uuidMatch_iff in Hm as (-> & _ & _ & Hfield).
  unfold has_entry. apply orb_true_iff.
  destruct Hfield as [->| ->]; [left | right]; now apply parsed_defined.
Qed.

Lemma transform_matched (now : nat -> Z) (flat : obj) :
  parsed flat ->
  existsb is_match (keys flat) = true ->
  transform now flat
  = map (grouped flat) (first_occurrences (matched_ids (keys flat))).
Proof.
  intros Hp Hm. unfold transform.
  rewrite transformedData_groups, (parsed_has_entry flat Hp).
  apply matched_ids_some in Hm.
  destruct (matched_ids (keys flat)) as [|u l]; [contradiction|reflexivity].
Qed.

(** C5.  For a parsed mapping with at least one matching key, the output
    holds exactly one record per distinct identifier of the matching keys,
    in the order in which the identifiers first occur among the keys; the
    record has the fields [title], [body] and [uuid], a missing title or
    body being the empty text. *)
Theorem transform_one_record_per_identifier (now : nat -> Z) (flat : obj) :
  parsed flat ->
  existsb is_match (keys flat) = true ->
  let ids := first_occurrences (matched_ids (keys flat)) in
  transform now flat = map (grouped flat) ids
  /\ NoDup ids
  /\ (forall uuid, In uuid ids <-> In uuid (matched_ids (keys flat)))
  /\ (forall uuid,
         keys (grouped flat uuid) = ["title"; "body"; "uuid"]
         /\ get (grouped flat uuid) "uuid" = VStr uuid
         /\ (get flat (uuid ++ "_title") = VUndefined ->
             get (grouped flat uuid) "title" = VStr "")
         /\ (get flat (uuid ++ "_body") = VUndefined ->
             get (grouped flat uuid) "body" = VStr "")
         /\ (truthy (get flat (uuid ++ "_title")) = true ->
             get (grouped flat uuid) "title" = get flat (uuid ++ "_title"))
         /\ (truthy (get flat (uuid ++ "_body")) = true ->
             get (grouped flat uuid) "body" = get flat (uuid ++ "_body"))).
Proof.
  intros Hp Hm ids. split; [now apply transform_matched|].
  split; [apply first_occurrences_NoDup|].
  split; [intros uuid; apply first_occurrences_In|].
  intros uuid. unfold grouped, get at 1 2 3 5 7 9, or_else_value. simpl.
  repeat split; intros H; now rewrite H.
Qed.

Lemma transform_one_record_per_identifier_witness :
  transform (fun _ => 0%Z)
    [ ("973fcb7a-154a-46f7-b7c6-134a16a46ea3_body", VStr "B");
      ("note", VStr "dropped");
      ("36ddfcee-a654-4e6d-8dd2-7761f3b3c005_title", VStr "T2");
      ("973fcb7a-154a-46f7-b7c6-134a16a46ea3_title", VStr "T") ]
  = [ [("title", VStr "T"); ("body", VStr "B");
       ("uuid", VStr "973fcb7a-154a-46f7-b7c6-134a16a46ea3")];
      [("title", VStr "T2"); ("body", VStr "");
       ("uuid", VStr "36ddfcee-a654-4e6d-8dd2-7761f3b3c005")] ].
Proof.
  apply (transform_one_record_per_identifier (fun _ => 0%Z)
           [ ("973fcb7a-154a-46f7-b7c6-134a16a46ea3_body", VStr "B");
             ("note", VStr "dropped");
             ("36ddfcee-a654-4e6d-8dd2-7761f3b3c005_title", VStr "T2");
             ("973fcb7a-154a-46f7-b7c6-134a16a46ea3_title", VStr "T") ]).
  - repeat constructor.
  - reflexivity.
Defined.

End Reconstruction.

Section Fallback.

Lemma fallback_from_entries (now : nat -> Z) (flat : obj) :
  NoDup (keys flat) ->
  forall (l : obj) (index : nat),
    incl l flat ->
    fallback_from now flat index (keys l)
    = map (fun ie => fallback_record now (fst ie) (snd ie)) (indexed_from index l).
Proof.
  intros Hnd. induction l as [|[key v] l IH]; intros index Hincl; simpl;
    [reflexivity|].
  rewrite IH by (intros e He; apply Hincl; now right).
  unfold fallback_record, record_of, get. simpl.
  rewrite (lookup_NoDup key v flat Hnd); [reflexivity|].
  apply Hincl. now left.
Qed.

Lemma indexed_from_length {A : Type} (l : list A) (index : nat) :
  List.length (indexed_from index l) = List.length l.
Proof.
  revert index. induction l as [|x l IH]; intros index; simpl;
    [reflexivity | now rewrite IH].
Qed.

Lemma transform_unmatched (now : nat -> Z) (flat : obj) :
  NoDup (keys flat) ->
  existsb is_match (keys flat) = false ->
  transform now flat
  = map (fun ie => fallback_record now (fst ie) (snd ie)) (indexed_from 0 flat).
Proof.
  intros Hnd Hm. unfold transform.
  rewrite transformedData_groups, (matched_ids_none _ Hm). simpl.
  apply fallback_from_entries; [assumption | apply incl_refl].
Qed.

Lemma lookup_filter (q : string -> bool) (k : string) (o : obj) :
  q k = true -> lookup k (filter (fun p => q (fst p)) o) = lookup k o.
Proof.
  intros Hq. induction o as [|[k' v'] o IH]; simpl; [reflexivity|].
  destruct (String.eqb_spec k' k) as [->|Hne].
  - rewrite Hq. simpl. now rewrite String.eqb_refl.
  - destruct (q k'); simpl; [|assumption].
    destruct (String.eqb_spec k' k); [contradiction | assumption].
Qed.

Lemma keys_filter (q : string -> bool) (o : obj) :
  keys (filter (fun p => q (fst p)) o) = filter q (keys o).
Proof.
  induction o as [|[k v] o IH]; simpl; [reflexivity|].
  destruct (q k); simpl; now rewrite IH.
Qed.

Lemma matched_ids_filter (ks : list string) :
  matched_ids (filter is_match ks) = matched_ids ks.
Proof.
  unfold matched_ids, is_match.
  induction ks as [|key ks IH]; simpl; [reflexivity|].
  destruct (uuidMatch key) as [[uuid field]|] eqn:Hm; simpl; [|assumption].
  now rewrite Hm, IH.
Qed.

Lemma existsb_filter_same {A : Type} (q : A -> bool) (l : list A) :
  existsb q (filter q l) = existsb q l.
Proof.
  induction l as [|x l IH]; simpl; [reflexivity|].
  destruct (q x) eqn:Hq; simpl; [now rewrite Hq | assumption].
Qed.

Lemma matched_id_shape (uuid : string) (ks : list string) :
  In uuid (matched_ids ks) ->
  String.length uuid = 36 /\ all_chars uuid_char uuid = true.
Proof.
  intros H. apply matched_ids_In in H as (key & field & _ & Hm).
  apply uuidMatch_iff in Hm. tauto.
Qed.

Lemma is_match_title_key (uuid : string) (ks : list string) :
  In uuid (matched_ids ks) -> is_match (uuid ++ "_title") = true.
Proof.
  intros H. apply matched_id_shape in H as [Hlen Hall].
  unfold is_match. now rewrite uuidMatch_title_key.
Qed.

Lemma is_match_body_key (uuid : string) (ks : list string) :
  In uuid (matched_ids ks) -> is_match (uuid ++ "_body") = true.
Proof.
  intros H. apply matched_id_shape in H as [Hlen Hall].
  unfold is_match. now rewrite uuidMatch_body_key.
Qed.

Lemma grouped_filter (flat : obj) (uuid : string) :
  In uuid (matched_ids (keys flat)) ->
  grouped (filter (fun p => is_match (fst p)) flat) uuid = grouped flat uuid.
Proof.
  intros H. unfold grouped, get.
  rewrite !lookup_filter;
    [reflexivity | now apply (is_match_body_key uuid (keys flat))
     | now apply (is_match_title_key uuid (keys flat))].
Qed.

Lemma transform_ignores_unmatched (now now' : nat -> Z) (flat : obj) :
  parsed flat ->
  existsb is_match (keys flat) = true ->
  transform now flat
  = transform now' (filter (fun p => is_match (fst p)) flat).
Proof.
  intros Hp Hm.
  rewrite (transform_matched now flat Hp Hm).
  rewrite transform_matched.
  - rewrite keys_filter, matched_ids_filter.
    apply map_ext_in. intros uuid Hin. symmetry. apply grouped_filter.
    now apply (proj1 (first_occurrences_In _ _)) in Hin.
  - unfold parsed in *. rewrite Forall_forall in *.
    intros e He. apply Hp. now apply filter_In in He.
  - now rewrite keys_filter, existsb_filter_same.
Qed.

Lemma matched_id_not_generated (uuid : string) (ks : list string)
  (reading : Z) (index : nat) :
  In uuid (matched_ids ks) -> uuid <> generated reading index.
Proof.
  intros H. apply matched_id_shape in H as [Hlen Hall].
  unfold generated. simpl. intros ->. simpl in Hall. discriminate.
Qed.

(** C2.  For a parsed mapping: when no key matches the pattern, the output
    holds one record per key, in the order of the keys, with the key as
    [title], the value under it as [body] and [generated-t-i] as
    identifier, [t] the reading of the clock then, [i] the position of the
    key; when some key matches, the output is the one the matching entries
    alone give, every record stands for the identifier of a matching key,
    and none has a generated identifier. *)
Theorem transform_fallback_all_or_nothing (now : nat -> Z) (flat : obj) :
  parsed flat ->
  NoDup (keys flat) ->
  (existsb is_match (keys flat) = false ->
   transform now flat
   = map (fun ie => fallback_record now (fst ie) (snd ie)) (indexed_from 0 flat)
   /\ List.length (transform now flat) = List.length (keys flat))
  /\ (existsb is_match (keys flat) = true ->
      (forall now',
          transform now flat
          = transform now' (filter (fun p => is_match (fst p)) flat))
      /\ (forall r,
             In r (transform now flat) ->
             exists uuid,
               In uuid (matched_ids (keys flat))
               /\ r = grouped flat uuid
               /\ forall reading index,
                   get r "uuid" <> VStr (generated reading index))).
Proof.
  intros Hp Hnd. split; intros Hm.
  - rewrite (transform_unmatched now flat Hnd Hm). split; [reflexivity|].
    unfold keys. now rewrite !length_map, indexed_from_length.
  - split; [intros now'; now apply transform_ignores_unmatched|].
    intros r Hr. rewrite (transform_matched now flat Hp Hm) in Hr.
    apply in_map_iff in Hr as (uuid & <- & Hin).
    apply (proj1 (first_occurrences_In _ _)) in Hin.
    exists uuid. split; [assumption|]. split; [reflexivity|].
    intros reading index H. unfold grouped, get in H. simpl in H.
    injection H as H.
    now apply (matched_id_not_generated uuid (keys flat) reading index).
Qed.

Lemma transform_fallback_witness :
  transform (fun i => (1700000000000 + Z.of_nat i)%Z)
    [ ("greeting", VStr "Hello"); ("farewell", VStr "Bye") ]
  = [ [("title", VStr "greeting"); ("body", VStr "Hello");
       ("uuid", VStr "generated-1700000000000-0")];
      [("title", VStr "farewell"); ("body", VStr "Bye");
       ("uuid", VStr "generated-1700000000001-1")] ]
  /\ transform (fun _ => 0%Z)
       [ ("greeting", VStr "Hello");
         ("973fcb7a-154a-46f7-b7c6-134a16a46ea3_title", VStr "T") ]
     = transform (fun _ => 1%Z)
         (filter (fun p => is_match (fst p))
            [ ("greeting", VStr "Hello");
              ("973fcb7a-154a-46f7-b7c6-134a16a46ea3_title", VStr "T") ]).
Proof.
  split.
  - apply (transform_fallback_all_or_nothing
             (fun i => (1700000000000 + Z.of_nat i)%Z)
             [ ("greeting", VStr "Hello"); ("farewell", VStr "Bye") ]).
    + repeat constructor.
    + repeat constructor; simpl; intuition discriminate.
    + reflexivity.
  - apply (transform_fallback_all_or_nothing (fun _ => 0%Z)
             [ ("greeting", VStr "Hello");
               ("973fcb7a-154a-46f7-b7c6-134a16a46ea3_title", VStr "T") ]).
    + repeat constructor.
    + repeat constructor; simpl; intuition discriminate.
    + reflexivity.
Defined.

End Fallback.

(** ** Flattening, then reconstructing *)

Section RoundTrip.

Lemma obj_set_flat_of (f g : obj -> value) (id : string) (item : obj) :
  forall pairs,
    obj_set (obj_set (flat_of f g pairs) (title_key id) (f item))
      (body_key id) (g item)
    = flat_of f g (upsert pairs id item).
Proof.
  assert (Htb : forall a b, String.eqb (title_key a) (body_key b) = false).
  { intros a b. apply String.eqb_neq, title_key_not_body_key. }
  assert (Hbt : forall a b, String.eqb (body_key a) (title_key b) = false).
  { intros a b. rewrite String.eqb_sym. apply Htb. }
  unfold flat_of.
  induction pairs as [|[id' item'] pairs IH];
    cbn [flat_map app upsert obj_set fst snd].
  - now rewrite Htb.
  - destruct (String.eqb_spec id' id) as [->|Hne];
      cbn [flat_map app upsert obj_set fst snd].
    + rewrite (String.eqb_refl (title_key id)).
      cbn [obj_set]. now rewrite Htb, String.eqb_refl.
    + destruct (String.eqb_spec (title_key id') (title_key id)) as [E|_];
        [now apply title_key_inj in E|].
      rewrite Hbt. cbn [obj_set]. rewrite Htb.
      destruct (String.eqb_spec (body_key id') (body_key id)) as [E|_];
        [now apply body_key_inj in E|].
      now rewrite <- IH.
Qed.

Lemma valid_record_inv (r : obj) :
  valid_record r = true ->
  exists u t b,
    get r "uuid" = VStr u /\ get r "title" = VStr t /\ get r "body" = VStr b
    /\ String.length u = 36 /\ all_chars uuid_char u = true
    /\ t <> "" /\ b <> "".
Proof.
  unfold valid_record, accepted_identifier.
  destruct (get r "uuid") as [| | | |u| |]; try discriminate.
  destruct (get r "title") as [| | | |t| |]; try discriminate.
  destruct (get r "body") as [| | | |b| |]; try discriminate.
  rewrite !andb_true_iff, !negb_true_iff, !String.eqb_neq, Nat.eqb_eq.
  intros [[[Hlen Hall] Ht] Hb]. exists u, t, b. repeat split; assumption.
Qed.

Lemma valid_record_step (pairs : list (string * obj)) (r : obj) :
  valid_record r = true ->
  flatten_step (source_of pairs, target_of pairs) r
  = Ok (source_of (upsert pairs (id_text r) r),
        target_of (upsert pairs (id_text r) r)).
Proof.
  intros Hv.
  destruct (valid_record_inv r Hv) as (u & t & b & Hu & Ht & Hb & _ & _ & Hnt & Hnb).
  unfold flatten_step, qualifies, id_text. rewrite Hu, Ht, Hb. simpl.
  apply String.eqb_neq in Hnt, Hnb. rewrite Hnt, Hnb. simpl.
  assert (Hnu : String.eqb u "" = false).
  { apply String.eqb_neq. intros ->.
    destruct (valid_record_inv r Hv) as (u' & _ & _ & Hu' & _ & _ & Hlen & _).
    rewrite Hu in Hu'. injection Hu' as <-. discriminate. }
  rewrite Hnu. simpl. f_equal. f_equal.
  - rewrite <- Ht, <- Hb.
    exact (obj_set_flat_of (fun i => get i "title") (fun i => get i "body")
             u r pairs).
  - exact (obj_set_flat_of (fun _ => VStr "") (fun _ => VStr "") u r pairs).
Qed.

Lemma forEach_flatten_valid (jsonData : list obj) :
  Forall (fun r => valid_record r = true) jsonData ->
  forall pairs,
    forEach flatten_step jsonData (source_of pairs, target_of pairs)
    = Ok (source_of (fold_left (fun ps r => upsert ps (id_text r) r) jsonData pairs),
          target_of (fold_left (fun ps r => upsert ps (id_text r) r) jsonData pairs)).
Proof.
  induction 1 as [|r rest Hr _ IH]; intros pairs; cbn [forEach fold_left].
  - reflexivity.
  - rewrite (valid_record_step pairs r Hr). simpl. apply IH.
Qed.

Lemma flatten_valid (jsonData : list obj) :
  Forall (fun r => valid_record r = true) jsonData ->
  flatten jsonData
  = Ok (source_of (by_identifier jsonData), target_of (by_identifier jsonData)).
Proof. intros H. exact (forEach_flatten_valid jsonData H []). Qed.

Lemma upsert_fst (pairs : list (string * obj)) (id : string) (item : obj) :
  map fst (upsert pairs id item)
  = if mem id (map fst pairs) then map fst pairs
    else (map fst pairs ++ [id])%list.
Proof.
  unfold mem.
  induction pairs as [|[id' item'] pairs IH]; simpl; [reflexivity|].
  rewrite (String.eqb_sym id id').
  destruct (String.eqb id' id); simpl; [reflexivity|].
  rewrite IH. now destruct (existsb (String.eqb id) (map fst pairs)).
Qed.

Lemma upsert_fresh (pairs : list (string * obj)) (id : string) (item : obj) :
  ~ In id (map fst pairs) -> upsert pairs id item = (pairs ++ [(id, item)])%list.
Proof.
  induction pairs as [|[id' item'] pairs IH]; simpl; intros H; [reflexivity|].
  destruct (String.eqb_spec id' id) as [->|_]; [tauto|].
  rewrite IH; [reflexivity | tauto].
Qed.

Lemma upsert_In (pairs : list (string * obj)) (id : string) (item : obj)
  (p : string * obj) :
  NoDup (map fst pairs) ->
  In p (upsert pairs id item) ->
  p = (id, item) \/ (In p pairs /\ fst p <> id).
Proof.
  induction pairs as [|[id' item'] pairs IH]; simpl; intros Hnd Hin.
  - destruct Hin as [<-|[]]. now left.
  - inversion Hnd as [|? ? Hfresh Hnd']; subst.
    destruct (String.eqb_spec id' id) as [->|Hne]; simpl in Hin.
    + destruct Hin as [<-|Hin]; [now left|]. right. split; [now right|].
      intros E. apply Hfresh. rewrite <- E. now apply in_map.
    + destruct Hin as [<-|Hin]; [right; split; [now left | assumption]|].
      destruct (IH Hnd' Hin) as [->|[Hp Hfst]]; [now left | right; tauto].
Qed.

Lemma first_occurrences_snoc (l : list string) (x : string) :
  first_occurrences (l ++ [x])
  = if mem x l then first_occurrences l else (first_occurrences l ++ [x])%list.
Proof.
  unfold mem.
  induction l as [|y l IH]; simpl; [reflexivity|].
  rewrite IH. rewrite (String.eqb_sym x y).
  destruct (String.eqb y x) eqn:E; simpl.
  - destruct (existsb (String.eqb x) l); [reflexivity|].
    rewrite filter_app. simpl. rewrite E. simpl. now rewrite app_nil_r.
  - destruct (existsb (String.eqb x) l); [reflexivity|].
    rewrite filter_app. simpl. now rewrite E.
Qed.

Lemma mem_first_occurrences (x : string) (l : list string) :
  mem x (first_occurrences l) = mem x l.
Proof.
  apply eq_true_iff_eq. rewrite !mem_In. apply first_occurrences_In.
Qed.

Lemma by_identifier_snoc (jsonData : list obj) (r : obj) :
  by_identifier (jsonData ++ [r])
  = upsert (by_identifier jsonData) (id_text r) r.
Proof. unfold by_identifier. now rewrite fold_left_app. Qed.

Lemma by_identifier_fst (jsonData : list obj) :
  map fst (by_identifier jsonData) = first_occurrences (map id_text jsonData).
Proof.
  induction jsonData as [|r rs IH] using rev_ind; [reflexivity|].
  rewrite by_identifier_snoc, upsert_fst, IH, map_app. simpl.
  now rewrite first_occurrences_snoc, mem_first_occurrences.
Qed.

Lemma by_identifier_last (jsonData : list obj) (id : string) (item : obj) :
  In (id, item) (by_identifier jsonData) ->
  exists before after,
    jsonData = (before ++ item :: after)%list
    /\ id_text item = id
    /\ ~ In id (map id_text after).
Proof.
  revert id item.
  induction jsonData as [|r rs IH] using rev_ind; intros id item Hin;
    [contradiction|].
  rewrite by_identifier_snoc in Hin.
  apply upsert_In in Hin;
    [|rewrite by_identifier_fst; apply first_occurrences_NoDup].
  destruct Hin as [E|[Hin Hne]].
  - injection E as -> ->. exists rs, []. auto.
  - destruct (IH _ _ Hin) as (before & after & -> & Hid & Hafter).
    exists before, (after ++ [r])%list. rewrite <- app_assoc. simpl.
    split; [reflexivity|]. split; [assumption|].
    rewrite map_app, in_app_iff. simpl in *. intuition.
Qed.

Lemma by_identifier_distinct (jsonData : list obj) :
  NoDup (map id_text jsonData) ->
  by_identifier jsonData = map (fun r => (id_text r, r)) jsonData.
Proof.
  induction jsonData as [|r rs IH] using rev_ind; intros Hnd; [reflexivity|].
  rewrite map_app in Hnd. simpl in Hnd.
  apply NoDup_remove in Hnd as [Hnd Hfresh]. rewrite app_nil_r in Hnd, Hfresh.
  rewrite by_identifier_snoc, (IH Hnd), map_app. simpl.
  apply upsert_fresh. now rewrite map_map.
Qed.

Lemma well_formed_inv (p : string * obj) :
  well_formed p ->
  String.length (fst p) = 36 /\ all_chars uuid_char (fst p) = true
  /\ get (snd p) "uuid" = VStr (fst p)
  /\ truthy (get (snd p) "title") = true
  /\ truthy (get (snd p) "body") = true.
Proof.
  intros [Hv Hid].
  destruct (valid_record_inv _ Hv)
    as (u & t & b & Hu & Ht & Hb & Hlen & Hall & Hnt & Hnb).
  unfold id_text in Hid. rewrite Hu in Hid. subst u.
  rewrite Ht, Hb. simpl.
  apply String.eqb_neq in Hnt, Hnb. rewrite Hnt, Hnb. auto.
Qed.

Lemma matched_ids_cons (key : string) (ks : list string) :
  matched_ids (key :: ks)
  = (match uuidMatch key with
     | Some (uuid, _) => [uuid]
     | None => []
     end ++ matched_ids ks)%list.
Proof. reflexivity. Qed.

Lemma matched_ids_source_of (pairs : list (string * obj)) :
  Forall well_formed pairs ->
  matched_ids (keys (source_of pairs))
  = flat_map (fun id => [id; id]) (map fst pairs).
Proof.
  rewrite keys_source_of.
  induction 1 as [|[id item] pairs Hp _ IH]; [reflexivity|].
  destruct (well_formed_inv _ Hp) as (Hlen & Hall & _).
  cbn [map flat_map keys_of_id app fst] in *.
  rewrite !matched_ids_cons, IH. unfold title_key, body_key.
  now rewrite (uuidMatch_title_key id Hlen Hall), (uuidMatch_body_key id Hlen Hall).
Qed.

Lemma first_occurrences_doubled (ids : list string) :
  NoDup ids -> first_occurrences (flat_map (fun id => [id; id]) ids) = ids.
Proof.
  induction 1 as [|id ids Hfresh _ IH]; [reflexivity|].
  cbn [flat_map app first_occurrences]. rewrite IH.
  cbn [filter]. rewrite String.eqb_refl. cbn [negb]. f_equal.
  rewrite filter_filter. apply forallb_filter_id, forallb_forall.
  intros y Hy. rewrite andb_diag. apply negb_true_iff, String.eqb_neq.
  intros <-. contradiction.
Qed.

Lemma source_of_In (pairs : list (string * obj)) (p : string * obj) :
  In p pairs ->
  In (title_key (fst p), get (snd p) "title") (source_of pairs)
  /\ In (body_key (fst p), get (snd p) "body") (source_of pairs).
Proof.
  intros Hin. unfold source_of. rewrite !in_flat_map.
  split; exists p; (split; [assumption|]); simpl; auto.
Qed.

Lemma grouped_source_of (pairs : list (string * obj)) (p : string * obj) :
  NoDup (map fst pairs) ->
  Forall well_formed pairs ->
  In p pairs ->
  grouped (source_of pairs) (fst p) = rebuilt p.
Proof.
  intros Hnd Hwf Hin.
  rewrite Forall_forall in Hwf.
  destruct (well_formed_inv _ (Hwf _ Hin)) as (_ & _ & _ & Ht & Hb).
  destruct (source_of_In pairs p Hin) as [Hti Hbi].
  assert (Hk : NoDup (keys (source_of pairs))).
  { rewrite keys_source_of. now apply keys_of_ids_NoDup. }
  unfold grouped, rebuilt, get.
  change (fst p ++ "_title") with (title_key (fst p)).
  change (fst p ++ "_body") with (body_key (fst p)).
  rewrite (lookup_NoDup _ _ _ Hk Hti), (lookup_NoDup _ _ _ Hk Hbi).
  unfold or_else_value. now rewrite Ht, Hb.
Qed.

Lemma parsed_source_of (pairs : list (string * obj)) :
  Forall well_formed pairs -> parsed (source_of pairs).
Proof.
  unfold parsed, source_of.
  induction 1 as [|p pairs Hp _ IH]; [constructor|].
  destruct (well_formed_inv _ Hp) as (_ & _ & _ & Ht & Hb).
  cbn [flat_map source_entries app].
  constructor; [|constructor; [|exact IH]]; cbn [snd].
  - now destruct (get (snd p) "title").
  - now destruct (get (snd p) "body").
Qed.

Lemma transform_source_of (now : nat -> Z) (pairs : list (string * obj)) :
  NoDup (map fst pairs) ->
  Forall well_formed pairs ->
  transform now (source_of pairs) = map rebuilt pairs.
Proof.
  intros Hnd Hwf.
  destruct pairs as [|p0 rest] eqn:E; [reflexivity|]. rewrite <- E in *.
  assert (Hsome : existsb is_match (keys (source_of pairs)) = true).
  { subst pairs. inversion Hwf as [|? ? Hp _]; subst.
    destruct (well_formed_inv _ Hp) as (Hlen & Hall & _).
    cbn [source_of flat_map source_entries keys map app existsb fst].
    unfold is_match at 1, title_key.
    now rewrite (uuidMatch_title_key _ Hlen Hall). }
  rewrite (transform_matched now _ (parsed_source_of _ Hwf) Hsome).
  rewrite (matched_ids_source_of _ Hwf), (first_occurrences_doubled _ Hnd).
  rewrite map_map. apply map_ext_in. intros p Hp.
  now apply grouped_source_of.
Qed.

(** C1, as the code has it.  Flattening an array of valid records and
    reconstructing from the source mapping gives one record per identifier,
    in the order in which the identifiers first occur in the array; the
    record has the identifier, title and body of the last record of the
    array that carries this identifier.  When the identifiers of the array
    are pairwise different, these are the triples of the array, in its
    order. *)
Theorem roundtrip_last_record_per_identifier (now : nat -> Z) (jsonData : list obj) :
  Forall (fun r => valid_record r = true) jsonData ->
  exists sourceJson targetJson,
    flatten jsonData = Ok (sourceJson, targetJson)
    /\ map id_text (transform now sourceJson)
       = first_occurrences (map id_text jsonData)
    /\ (forall r',
           In r' (transform now sourceJson) ->
           exists before r after,
             jsonData = (before ++ r :: after)%list
             /\ triple r' = triple r
             /\ ~ In (id_text r) (map id_text after))
    /\ (NoDup (map id_text jsonData) ->
        map triple (transform now sourceJson) = map triple jsonData).
Proof.
  intros Hvalid.
  exists (source_of (by_identifier jsonData)), (target_of (by_identifier jsonData)).
  split; [now apply flatten_valid|].
  assert (Hnd : NoDup (map fst (by_identifier jsonData))).
  { rewrite by_identifier_fst. apply first_occurrences_NoDup. }
  assert (Hwf : Forall well_formed (by_identifier jsonData)).
  { apply Forall_forall. intros [id item] Hin.
    destruct (by_identifier_last _ _ _ Hin) as (before & after & E & Hid & _).
    split; [|exact Hid]. rewrite Forall_forall in Hvalid. apply Hvalid.
    rewrite E. apply in_elt. }
  rewrite (transform_source_of now _ Hnd Hwf).
  split; [|split].
  - rewrite map_map, <- by_identifier_fst. now apply map_ext.
  - intros r' Hr'. apply in_map_iff in Hr' as ([id item] & <- & Hin).
    destruct (by_identifier_last _ _ _ Hin) as (before & after & E & Hid & Hafter).
    exists before, item, after. split; [assumption|].
    rewrite Forall_forall in Hwf.
    destruct (well_formed_inv _ (Hwf _ Hin)) as (_ & _ & Hu & _).
    split; [|now rewrite Hid].
    unfold triple. simpl in Hu. now rewrite Hu.
  - intros Hdistinct. rewrite (by_identifier_distinct _ Hdistinct) in *.
    rewrite !map_map. apply map_ext_in. intros r Hr.
    rewrite Forall_forall in Hwf.
    assert (Hp : In (id_text r, r) (map (fun r => (id_text r, r)) jsonData))
      by (apply in_map_iff; now exists r).
    destruct (well_formed_inv _ (Hwf _ Hp)) as (_ & _ & Hu & _).
    unfold triple. simpl in Hu. now rewrite Hu.
Qed.

Lemma roundtrip_last_record_witness :
  exists sourceJson targetJson,
    flatten
      [ [("title", VStr "Hello"); ("body", VStr "World");
         ("uuid", VStr "973fcb7a-154a-46f7-b7c6-134a16a46ea3")];
        [("title", VStr "A & B"); ("body", VStr "<x>");
         ("uuid", VStr "36ddfcee-a654-4e6d-8dd2-7761f3b3c005")] ]
    = Ok (sourceJson, targetJson)
    /\ map triple (transform (fun _ => 0%Z) sourceJson)
       = [ (VStr "973fcb7a-154a-46f7-b7c6-134a16a46ea3", VStr "Hello", VStr "World");
           (VStr "36ddfcee-a654-4e6d-8dd2-7761f3b3c005", VStr "A & B", VStr "<x>") ].
Proof.
  destruct (roundtrip_last_record_per_identifier (fun _ => 0%Z)
              [ [("title", VStr "Hello"); ("body", VStr "World");
                 ("uuid", VStr "973fcb7a-154a-46f7-b7c6-134a16a46ea3")];
                [("title", VStr "A & B"); ("body", VStr "<x>");
                 ("uuid", VStr "36ddfcee-a654-4e6d-8dd2-7761f3b3c005")] ])
    as (sourceJson & targetJson & Hflat & _ & _ & Hsame).
  - repeat constructor.
  - exists sourceJson, targetJson. split; [assumption|].
    apply Hsame. repeat constructor; simpl; intuition discriminate.
Defined.

(** C1 as stated fails when two records carry the same identifier: the
    entries of the second replace those of the first, whose triple is not
    in the output. *)
Lemma roundtrip_duplicate_identifier :
  let first :=
    [("title", VStr "Hello"); ("body", VStr "World");
     ("uuid", VStr "973fcb7a-154a-46f7-b7c6-134a16a46ea3")] in
  let second :=
    [("title", VStr "Bye"); ("body", VStr "All");
     ("uuid", VStr "973fcb7a-154a-46f7-b7c6-134a16a46ea3")] in
  valid_record first = true /\ valid_record second = true
  /\ flatten [first; second]
     = Ok ([("973fcb7a-154a-46f7-b7c6-134a16a46ea3_title", VStr "Bye");
            ("973fcb7a-154a-46f7-b7c6-134a16a46ea3_body", VStr "All")],
           [("973fcb7a-154a-46f7-b7c6-134a16a46ea3_title", VStr "");
            ("973fcb7a-154a-46f7-b7c6-134a16a46ea3_body", VStr "")])
  /\ transform (fun _ => 0%Z)
       [("973fcb7a-154a-46f7-b7c6-134a16a46ea3_title", VStr "Bye");
        ("973fcb7a-154a-46f7-b7c6-134a16a46ea3_body", VStr "All")]
     = [second]
  /\ In (triple first) (map triple [first; second])
  /\ ~ In (triple first) (map triple [second]).
Proof.
  simpl. repeat split; auto.
  intros [H|[]]. discriminate.
Qed.

End RoundTrip.

(** ** The consolidation *)

Section ConsolidationSteps.

Lemma escape_each_app (a b : string) :
  escape_each (a ++ b) = escape_each a ++ escape_each b.
Proof.
  induction a as [|c a IH]; simpl; [reflexivity|].
  now rewrite IH, append_assoc.
Qed.

Lemma escapeXml_text (s : string) : escapeXml (Data (VStr s)) = Ok (escape_each s).
Proof. now rewrite escapeXml_string, replace_chain_escape_each. Qed.

Lemma escapeXml_target (m : member) (s : string) :
  target_text m = Some s ->
  escapeXml (or_else m (VStr "")) = Ok (escape_each s).
Proof.
  destruct m as [v|]; [|discriminate].
  destruct v as [| |b|repr|t|elems|props]; simpl;
    try (intros H; injection H as <-; reflexivity);
    try discriminate.
  - destruct b; [discriminate|]. intros H. now injection H as <-.
  - unfold or_else, escapeXml. simpl.
    destruct (String.eqb repr "0"); simpl; [|discriminate].
    intros H. now injection H as <-.
  - intros H. injection H as <-. unfold or_else. simpl.
    destruct (String.eqb_spec t "") as [->|Hne]; simpl; [reflexivity|].
    apply escapeXml_text.
Qed.

Lemma field_step_skip (sourceItem targetItem : obj) (st : emitted)
  (fieldName : string) :
  nonblank_string (read sourceItem fieldName) = false ->
  field_step sourceItem targetItem st fieldName = Ok st.
Proof.
  intros H. unfold field_step. rewrite H. simpl. now rewrite orb_true_r.
Qed.

Lemma field_step_emit (sourceItem targetItem : obj) (st : emitted)
  (fieldName uuid text target : string) :
  get sourceItem "uuid" = VStr uuid ->
  read sourceItem fieldName = Data (VStr text) ->
  trims_to_empty text = false ->
  target_text (read targetItem fieldName) = Some target ->
  field_step sourceItem targetItem st fieldName
  = Ok (emit st {| unit_id := uuid ++ "_" ++ fieldName;
                   unit_source := text;
                   unit_target := target;
                   unit_note := fieldName ++ " for UUID: " ++ uuid |}).
Proof.
  intros Hu Hs Hb Ht. unfold field_step.
  rewrite Hs, Hu. cbn [nonblank_string truthy_member truthy to_string bind].
  rewrite Hb.
  assert (Hne : String.eqb text "" = false).
  { destruct text; [discriminate | reflexivity]. }
  rewrite Hne. cbn [negb orb].
  rewrite !escapeXml_text, (escapeXml_target _ _ Ht). cbn [bind].
  unfold emit, render_unit. cbn [unit_id unit_source unit_target unit_note].
  rewrite (escape_each_app fieldName), (escape_each_app " for UUID: ").
  f_equal. f_equal. cbn [escape_each entity].
  repeat rewrite ?append_assoc. reflexivity.
Qed.

End ConsolidationSteps.

Section Units.

(** C6, as the code has it.  For a source record and its target record and
    a translatable field: nothing is emitted when the source value is not a
    text with a character other than white space (missing, empty, blank,
    or no text at all), whatever the target holds; when it is such a text,
    the identifier of the source record is a text and the value of the
    field in the target record is a text, or missing or falsy, exactly one
    unit is emitted, with id [uuid_field], the source text, the target
    record's text for the field (empty when that is missing or falsy) and
    the note [field for UUID: uuid].  The loop over a matched pair is this
    step over the translatable fields, and the two records of the example
    give the units [X_title] and [X_body]. *)
Theorem field_step_one_unit_per_text (sourceItem targetItem : obj)
  (st : emitted) (fieldName : string) :
  (nonblank_string (read sourceItem fieldName) = false ->
   field_step sourceItem targetItem st fieldName = Ok st)
  /\ (forall uuid text target,
         get sourceItem "uuid" = VStr uuid ->
         read sourceItem fieldName = Data (VStr text) ->
         trims_to_empty text = false ->
         target_text (read targetItem fieldName) = Some target ->
         field_step sourceItem targetItem st fieldName
         = Ok (emit st {| unit_id := uuid ++ "_" ++ fieldName;
                          unit_source := text;
                          unit_target := target;
                          unit_note := fieldName ++ " for UUID: " ++ uuid |}))
  /\ (forall fields tmap,
         truthy (get sourceItem "uuid") = true ->
         map_get tmap (get sourceItem "uuid") = Some targetItem ->
         item_step fields tmap st sourceItem
         = forEach (field_step sourceItem targetItem) fields st)
  /\ generateXliffContent
       [ [("uuid", VStr "X"); ("title", VStr "A"); ("body", VStr "B")] ]
       [ [("uuid", VStr "X"); ("title", VStr "가"); ("body", VStr "나")] ]
       "en" "ko"
     = Ok ({| content :=
                document "en" "ko"
                  (render_unit {| unit_id := "X_title";
                                  unit_source := "A";
                                  unit_target := "가";
                                  unit_note := "title for UUID: X" |}
                   ++ render_unit {| unit_id := "X_body";
                                     unit_source := "B";
                                     unit_target := "나";
                                     unit_note := "body for UUID: X" |});
              xliff_unitCount := 2;
              fieldCount := 2 |},
           []).
Proof.
  split; [apply field_step_skip|].
  split; [intros uuid text target; apply field_step_emit|].
  split; [|reflexivity].
  intros fields tmap Hu Hm. unfold item_step. now rewrite Hu, Hm.
Qed.

Lemma field_step_one_unit_witness :
  field_step
    [("uuid", VStr "X"); ("title", VStr "A & B"); ("body", VStr "")]
    [("uuid", VStr "X"); ("body", VStr "C")]
    start "title"
  = Ok (emit start {| unit_id := "X_title";
                      unit_source := "A & B";
                      unit_target := "";
                      unit_note := "title for UUID: X" |})
  /\ field_step
       [("uuid", VStr "X"); ("title", VStr "A & B"); ("body", VStr "")]
       [("uuid", VStr "X"); ("body", VStr "C")]
       start "body"
     = Ok start.
Proof.
  split.
  - apply (proj1 (proj2 (field_step_one_unit_per_text
                           [("uuid", VStr "X"); ("title", VStr "A & B"); ("body", VStr "")]
                           [("uuid", VStr "X"); ("body", VStr "C")]
                           start "title"))
             "X" "A & B" "");
      reflexivity.
  - apply (proj1 (field_step_one_unit_per_text
                    [("uuid", VStr "X"); ("title", VStr "A & B"); ("body", VStr "")]
                    [("uuid", VStr "X"); ("body", VStr "C")]
                    start "body")).
    reflexivity.
Defined.

(** C6 as stated fails for a source value that is a text of white space
    only, or a number: it is neither empty nor absent, and no unit is
    emitted for it. *)
Lemma field_step_blank_source_skipped :
  let sourceData :=
    [ [("uuid", VStr "X"); ("title", VStr "A")];
      [("uuid", VStr "Y"); ("title", VStr " ")];
      [("uuid", VStr "Z"); ("title", VNum "5")] ] in
  let targetData :=
    [ [("uuid", VStr "X"); ("title", VStr "가")];
      [("uuid", VStr "Y"); ("title", VStr "나")];
      [("uuid", VStr "Z"); ("title", VStr "다")] ] in
  translatableFields [("uuid", VStr "X"); ("title", VStr "A")] = ["title"]
  /\ read [("uuid", VStr "Y"); ("title", VStr " ")] "title" = Data (VStr " ")
  /\ " " <> ""
  /\ field_step [("uuid", VStr "Y"); ("title", VStr " ")]
       [("uuid", VStr "Y"); ("title", VStr "나")] start "title"
     = Ok start
  /\ field_step [("uuid", VStr "Z"); ("title", VNum "5")]
       [("uuid", VStr "Z"); ("title", VStr "다")] start "title"
     = Ok start
  /\ generateXliffContent sourceData targetData "en" "ko"
     = Ok ({| content :=
                document "en" "ko"
                  (render_unit {| unit_id := "X_title";
                                  unit_source := "A";
                                  unit_target := "가";
                                  unit_note := "title for UUID: X" |});
              xliff_unitCount := 1;
              fieldCount := 1 |},
           []).
Proof. simpl. repeat split. discriminate. Qed.

End Units.

Section Exceptions.

Lemma to_string_throws : forall (v : value) (e : exn),
  to_string v = Throw e -> e = TypeError.
Proof.
  fix IH 1. intros [| |b|repr|s|elems|props] e; simpl; try discriminate.
  - revert e. induction elems as [|x rest IHrest]; intros e; [discriminate|].
    assert (Hx : forall e',
               match x with
               | VUndefined | VNull => Ok ""
               | _ => to_string x
               end = Throw e' -> e' = TypeError).
    { pose proof (IH x) as IHx. clear IH.
      intros e'. destruct x; try discriminate; apply IHx. }
    destruct rest as [|y rest']; [apply Hx|].
    destruct (match x with
              | VUndefined | VNull => Ok ""
              | _ => to_string x
              end) as [sx|ex] eqn:Ex.
    + cbn [bind].
      match goal with
      | |- bind ?j _ = _ -> _ => destruct j as [sj|ej] eqn:Ej
      end; cbn [bind]; [discriminate|].
      intros H. injection H as <-. now apply IHrest.
    + cbn [bind]. intros H. injection H as <-. now apply Hx.
  - destruct (lookup "toString" props); [|discriminate]. congruence.
Qed.

Lemma escapeXml_throws (m : member) (e : exn) :
  escapeXml m = Throw e -> e = TypeError.
Proof.
  unfold escapeXml. destruct (negb (truthy_member m)); [discriminate|].
  destruct m as [[| | | | | |]|]; try discriminate; congruence.
Qed.

Lemma bind_throws {A B : Type} (r : result A) (k : A -> result B) (e : exn) :
  bind r k = Throw e ->
  r = Throw e \/ exists a, r = Ok a /\ k a = Throw e.
Proof.
  destruct r as [a|e']; simpl; intros H; [right; now exists a|].
  left. congruence.
Qed.

Lemma forEach_throws {A S : Type} (f : S -> A -> result S) :
  (forall s x e, f s x = Throw e -> e = TypeError) ->
  forall l s e, forEach f l s = Throw e -> e = TypeError.
Proof.
  intros Hf. induction l as [|x l IH]; intros s e; simpl; [discriminate|].
  intros H. apply bind_throws in H as [H|(s' & _ & H)];
    [now apply Hf in H | now apply IH in H].
Qed.

Lemma field_step_throws (sourceItem targetItem : obj) (st : emitted)
  (fieldName : string) (e : exn) :
  field_step sourceItem targetItem st fieldName = Throw e -> e = TypeError.
Proof.
  unfold field_step.
  destruct (negb (truthy_member (read sourceItem fieldName))
            || negb (nonblank_string (read sourceItem fieldName)));
    [discriminate|].
  intros H.
  repeat match type of H with
         | bind _ _ = Throw _ =>
             apply bind_throws in H as [H|(? & _ & H)];
             [first [now apply to_string_throws in H
                    | now apply escapeXml_throws in H]|]
         end.
  discriminate.
Qed.

Lemma item_step_throws (fields : list string) (tmap : target_map)
  (st : emitted) (sourceItem : obj) (e : exn) :
  item_step fields tmap st sourceItem = Throw e -> e = TypeError.
Proof.
  unfold item_step.
  destruct (negb (truthy (get sourceItem "uuid"))); [discriminate|].
  destruct (map_get tmap (get sourceItem "uuid")) as [targetItem|].
  - apply forEach_throws. intros s x e'. apply field_step_throws.
  - intros H. apply bind_throws in H as [H|(? & _ & H)];
      [now apply to_string_throws in H | discriminate].
Qed.

End Exceptions.

Section TargetLookup.

Lemma map_set_get_none (m : target_map) (k u : value) (item : obj) :
  map_get m u = None -> same_value_zero k u = false ->
  map_get (map_set m k item) u = None.
Proof.
  intros Hm Hk. induction m as [|[k' item'] m IH]; simpl in *.
  - now rewrite Hk.
  - destruct (same_value_zero k' u) eqn:Hu; [discriminate|].
    destruct (same_value_zero k' k); simpl; rewrite Hu; [assumption|].
    now apply IH.
Qed.

Lemma map_set_values (m : target_map) (k : value) (item t : obj) :
  In t (map snd (map_set m k item)) -> t = item \/ In t (map snd m).
Proof.
  induction m as [|[k' item'] m IH]; simpl.
  - intuition.
  - destruct (same_value_zero k' k); simpl; intuition.
Qed.

Lemma map_get_value (m : target_map) (u : value) (t : obj) :
  map_get m u = Some t -> In t (map snd m).
Proof.
  induction m as [|[k item] m IH]; simpl; [discriminate|].
  destruct (same_value_zero k u); [|intuition].
  intros H. injection H as ->. now left.
Qed.

Lemma fold_targetMap_none (targetData : list obj) (u : value) :
  (forall t, In t targetData -> same_value_zero (get t "uuid") u = false) ->
  forall m,
    map_get m u = None ->
    map_get
      (fold_left
         (fun m item =>
            if truthy (get item "uuid") then map_set m (get item "uuid") item
            else m)
         targetData m) u
    = None.
Proof.
  induction targetData as [|t rest IH]; intros Hno m Hm; simpl; [assumption|].
  apply IH; [intros t' Ht'; apply Hno; now right|].
  destruct (truthy (get t "uuid")); [|assumption].
  apply map_set_get_none; [assumption | apply Hno; now left].
Qed.

Lemma targetMap_no_counterpart (targetData : list obj) (u : value) :
  (forall t, In t targetData -> same_value_zero (get t "uuid") u = false) ->
  map_get (targetMap targetData) u = None.
Proof. intros H. now apply fold_targetMap_none. Qed.

Lemma fold_targetMap_values (targetData : list obj) :
  forall m t,
    In t (map snd
            (fold_left
               (fun m item =>
                  if truthy (get item "uuid") then map_set m (get item "uuid") item
                  else m)
               targetData m)) ->
    In t targetData \/ In t (map snd m).
Proof.
  induction targetData as [|x rest IH]; intros m t; simpl; [now right|].
  intros H. apply IH in H as [H|H]; [left; now right|].
  destruct (truthy (get x "uuid")); [|now right].
  apply map_set_values in H as [->|H]; [left; now left | now right].
Qed.

Lemma targetMap_get_In (targetData : list obj) (u : value) (t : obj) :
  map_get (targetMap targetData) u = Some t -> In t targetData.
Proof.
  intros H. apply map_get_value in H.
  apply fold_targetMap_values in H as [H|[]]. assumption.
Qed.

(** C7.  A source record that carries an identifier for which the target
    array has no record adds no unit: its step returns, with the text and
    the number of the units as they were and one more warning, and the loop
    goes on with the records after it. *)
Theorem missing_target_warns_and_continues (fields : list string)
  (targetData : list obj) (sourceItem : obj) (uuid : string)
  (before after : list obj) (st : emitted) :
  truthy (get sourceItem "uuid") = true ->
  to_string (get sourceItem "uuid") = Ok uuid ->
  (forall t, In t targetData ->
             same_value_zero (get t "uuid") (get sourceItem "uuid") = false) ->
  (forall st0,
      exists st1,
        item_step fields (targetMap targetData) st0 sourceItem = Ok st1
        /\ transUnits st1 = transUnits st0
        /\ unitCount st1 = unitCount st0
        /\ warnings st1 = (warnings st0 ++ [missing_target_warning uuid])%list)
  /\ forEach (item_step fields (targetMap targetData))
       (before ++ sourceItem :: after) st
     = bind (forEach (item_step fields (targetMap targetData)) before st)
         (fun st0 =>
            forEach (item_step fields (targetMap targetData)) after
              (warn st0 (missing_target_warning uuid))).
Proof.
  intros Hu Hs Hno.
  assert (Hstep : forall st0,
             item_step fields (targetMap targetData) st0 sourceItem
             = Ok (warn st0 (missing_target_warning uuid))).
  { intros st0. unfold item_step.
    rewrite Hu, (targetMap_no_counterpart _ _ Hno), Hs. reflexivity. }
  split.
  - intros st0. exists (warn st0 (missing_target_warning uuid)).
    rewrite Hstep. repeat split.
  - rewrite forEach_app.
    destruct (forEach (item_step fields (targetMap targetData)) before st)
      as [st0|e]; [|reflexivity].
    cbn [bind forEach]. now rewrite Hstep.
Qed.

Lemma missing_target_witness :
  forEach
    (item_step ["title"]
       (targetMap [ [("uuid", VStr "X"); ("title", VStr "T")] ]))
    ([ [("uuid", VStr "X"); ("title", VStr "A")] ]
     ++ [("uuid", VStr "Y"); ("title", VStr "B")]
     :: [ [("uuid", VStr "X"); ("title", VStr "C")] ])
    start
  = bind
      (forEach
         (item_step ["title"]
            (targetMap [ [("uuid", VStr "X"); ("title", VStr "T")] ]))
         [ [("uuid", VStr "X"); ("title", VStr "A")] ] start)
      (fun st0 =>
         forEach
           (item_step ["title"]
              (targetMap [ [("uuid", VStr "X"); ("title", VStr "T")] ]))
           [ [("uuid", VStr "X"); ("title", VStr "C")] ]
           (warn st0 (missing_target_warning "Y"))).
Proof.
  apply (missing_target_warns_and_continues ["title"]
           [ [("uuid", VStr "X"); ("title", VStr "T")] ]
           [("uuid", VStr "Y"); ("title", VStr "B")] "Y").
  - reflexivity.
  - reflexivity.
  - intros t [<-|[]]. reflexivity.
Defined.

End TargetLookup.

Section FieldDetection.

Lemma firstSourceItem_none (sourceData : list obj) :
  firstSourceItem sourceData = None <->
  Forall (fun item => truthy (get item "uuid") = false) sourceData.
Proof.
  unfold firstSourceItem. induction sourceData as [|x l IH]; simpl.
  - split; [constructor | reflexivity].
  - destruct (truthy (get x "uuid")) eqn:Hx; split.
    + discriminate.
    + intros H. inversion H; subst. congruence.
    + intros H. constructor; [assumption | now apply IH].
    + intros H. inversion H; subst. now apply IH.
Qed.

Lemma firstSourceItem_first (before after : list obj) (first : obj) :
  Forall (fun item => truthy (get item "uuid") = false) before ->
  truthy (get first "uuid") = true ->
  firstSourceItem (before ++ first :: after) = Some first.
Proof.
  unfold firstSourceItem. intros Hb Hf.
  induction Hb as [|x l Hx _ IH]; simpl; [now rewrite Hf | now rewrite Hx].
Qed.

Lemma read_own (o : obj) (k : string) :
  In k (keys o) -> exists v, lookup k o = Some v /\ read o k = Data v.
Proof.
  intros H. destruct (lookup_In_keys k o H) as (v & Hv & _).
  exists v. unfold read. now rewrite Hv.
Qed.

Lemma translatableFields_In (first : obj) (key : string) :
  In key (translatableFields first) <->
  In key (keys first) /\ key <> "uuid"
  /\ exists s, lookup key first = Some (VStr s) /\ trims_to_empty s = false.
Proof.
  unfold translatableFields.
  rewrite filter_In, andb_true_iff, negb_true_iff, String.eqb_neq.
  split.
  - intros (Hk & Hne & Hs). split; [assumption|]. split; [assumption|].
    destruct (read_own first key Hk) as (v & Hv & Hr). rewrite Hr in Hs.
    destruct v; try discriminate. exists s. split; [assumption|].
    now apply negb_true_iff in Hs.
  - intros (Hk & Hne & s & Hs & Hb). split; [assumption|]. split; [assumption|].
    unfold read. rewrite Hs. simpl. now rewrite Hb.
Qed.

Lemma nonblank_string_inv (m : member) :
  nonblank_string m = true ->
  exists s, m = Data (VStr s) /\ trims_to_empty s = false.
Proof.
  destruct m as [[| | | |s| |]|]; try discriminate. simpl.
  intros H. apply negb_true_iff in H. now exists s.
Qed.

Lemma field_step_returns (sourceItem targetItem : obj) (uuid : string)
  (fields : list string) (st : emitted) (fieldName : string) :
  get sourceItem "uuid" = VStr uuid ->
  text_fields fields targetItem ->
  In fieldName fields ->
  exists st', field_step sourceItem targetItem st fieldName = Ok st'.
Proof.
  intros Hu Ht Hin.
  destruct (nonblank_string (read sourceItem fieldName)) eqn:Hs.
  - apply nonblank_string_inv in Hs as (text & Hs & Hb).
    destruct (Ht _ Hin) as (target & Htarget).
    eexists. now apply (field_step_emit _ _ _ _ uuid text target).
  - exists st. now apply field_step_skip.
Qed.

Lemma forEach_field_step_returns (sourceItem targetItem : obj) (uuid : string)
  (fields : list string) :
  get sourceItem "uuid" = VStr uuid ->
  text_fields fields targetItem ->
  forall l st,
    incl l fields ->
    exists st', forEach (field_step sourceItem targetItem) l st = Ok st'.
Proof.
  intros Hu Ht. induction l as [|f l IH]; intros st Hincl; simpl.
  - now exists st.
  - destruct (field_step_returns sourceItem targetItem uuid fields st f Hu Ht)
      as (st1 & ->); [apply Hincl; now left|].
    simpl. apply IH. intros x Hx. apply Hincl. now right.
Qed.

Lemma item_step_returns (fields : list string) (targetData : list obj)
  (st : emitted) (sourceItem : obj) :
  text_identifier sourceItem ->
  Forall (text_fields fields) targetData ->
  exists st', item_step fields (targetMap targetData) st sourceItem = Ok st'.
Proof.
  intros Hid Ht. unfold item_step.
  destruct (truthy (get sourceItem "uuid")) eqn:Hu; simpl; [|now exists st].
  destruct Hid as [Hid|(uuid & Hid)]; [congruence|].
  destruct (map_get (targetMap targetData) (get sourceItem "uuid"))
    as [targetItem|] eqn:Hm.
  - apply targetMap_get_In in Hm. rewrite Forall_forall in Ht.
    apply (forEach_field_step_returns _ _ uuid fields Hid (Ht _ Hm)).
    apply incl_refl.
  - rewrite Hid. simpl. eexists. reflexivity.
Qed.

Lemma forEach_item_step_returns (fields : list string) (targetData : list obj)
  (sourceData : list obj) :
  Forall text_identifier sourceData ->
  Forall (text_fields fields) targetData ->
  forall st,
    exists st',
      forEach (item_step fields (targetMap targetData)) sourceData st = Ok st'.
Proof.
  intros Hs Ht. induction Hs as [|x l Hx _ IH]; intros st; simpl.
  - now exists st.
  - destruct (item_step_returns fields targetData st x Hx Ht) as (st1 & ->).
    simpl. apply IH.
Qed.

(** C8, as the code has it.  Generation raises the error [No valid source
    items found with uuid field] exactly when no source record carries a
    truthy identifier.  When [first] is the first source record that
    carries one, the translatable fields are the fields of [first] other
    than [uuid] whose value is a text with a character that is not white
    space, and generation goes on with them: it returns, reporting that
    many fields, whenever the identifiers of the source records and the
    values of these fields in the target records are texts. *)
Theorem generateXliffContent_needs_identifier (sourceData targetData : list obj)
  (sourceLang targetLang : string) :
  (generateXliffContent sourceData targetData sourceLang targetLang
   = Throw (Error no_source_message)
   <-> Forall (fun item => truthy (get item "uuid") = false) sourceData)
  /\ (forall before first after,
         sourceData = (before ++ first :: after)%list ->
         Forall (fun item => truthy (get item "uuid") = false) before ->
         truthy (get first "uuid") = true ->
         firstSourceItem sourceData = Some first
         /\ (forall key,
                In key (translatableFields first) <->
                In key (keys first) /\ key <> "uuid"
                /\ exists s,
                    lookup key first = Some (VStr s)
                    /\ trims_to_empty s = false)
         /\ (Forall text_identifier sourceData ->
             Forall (text_fields (translatableFields first)) targetData ->
             exists x w,
               generateXliffContent sourceData targetData sourceLang targetLang
               = Ok (x, w)
               /\ fieldCount x = List.length (translatableFields first))).
Proof.
  split.
  - rewrite <- firstSourceItem_none. unfold generateXliffContent.
    destruct (firstSourceItem sourceData) as [first|]; [|tauto].
    split; [|discriminate].
    intros H. apply bind_throws in H as [H|(st & _ & H)]; [|discriminate].
    apply forEach_throws in H; [discriminate|].
    intros s x e. apply item_step_throws.
  - intros before first after -> Hb Hf.
    pose proof (firstSourceItem_first before after first Hb Hf) as Hfirst.
    split; [assumption|]. split; [apply translatableFields_In|].
    intros Hs Ht. unfold generateXliffContent. rewrite Hfirst.
    destruct (forEach_item_step_returns (translatableFields first) targetData
                (before ++ first :: after) Hs Ht start) as (st & ->).
    simpl. eexists. eexists. split; reflexivity.
Qed.

Lemma generateXliffContent_needs_identifier_witness :
  generateXliffContent
    [ [("title", VStr "no identifier")]; [("uuid", VStr ""); ("title", VStr "T")] ]
    [ [("uuid", VStr "X"); ("title", VStr "T")] ] "en" "ko"
  = Throw (Error no_source_message)
  /\ exists x w,
      generateXliffContent
        ([ [("title", VStr "no identifier")] ]
         ++ [("uuid", VStr "X"); ("title", VStr "A"); ("body", VStr " ")]
         :: [ [("uuid", VStr "Y"); ("title", VStr "B")] ])
        [ [("uuid", VStr "X"); ("title", VStr "T")] ] "en" "ko"
      = Ok (x, w)
      /\ fieldCount x
         = List.length
             (translatableFields
                [("uuid", VStr "X"); ("title", VStr "A"); ("body", VStr " ")]).
Proof.
  split.
  - apply (proj1 (generateXliffContent_needs_identifier
                    [ [("title", VStr "no identifier")];
                      [("uuid", VStr ""); ("title", VStr "T")] ]
                    [ [("uuid", VStr "X"); ("title", VStr "T")] ] "en" "ko")).
    repeat constructor.
  - apply (proj2 (generateXliffContent_needs_identifier
                    ([ [("title", VStr "no identifier")] ]
                     ++ [("uuid", VStr "X"); ("title", VStr "A"); ("body", VStr " ")]
                     :: [ [("uuid", VStr "Y"); ("title", VStr "B")] ])
                    [ [("uuid", VStr "X"); ("title", VStr "T")] ] "en" "ko")
             [ [("title", VStr "no identifier")] ]
             [("uuid", VStr "X"); ("title", VStr "A"); ("body", VStr " ")]
             [ [("uuid", VStr "Y"); ("title", VStr "B")] ]).
    + reflexivity.
    + repeat constructor.
    + reflexivity.
    + apply Forall_cons; [left; reflexivity|].
      apply Forall_cons; [right; eexists; reflexivity|].
      apply Forall_cons; [right; eexists; reflexivity|].
      apply Forall_nil.
    + apply Forall_cons; [|apply Forall_nil].
      intros f [<-|[]]. eexists. reflexivity.
Defined.

(** C8 as stated fails for a text of white space only: it is a non-empty
    string, in a field other than the identifier, of the first record that
    carries an identifier, and it is not a translatable field. *)
Lemma translatableFields_skip_blank_text :
  let first :=
    [("uuid", VStr "X"); ("title", VStr " "); ("body", VStr "B")] in
  firstSourceItem [first] = Some first
  /\ lookup "title" first = Some (VStr " ")
  /\ " " <> ""
  /\ "title" <> "uuid"
  /\ translatableFields first = ["body"]
  /\ ~ In "title" (translatableFields first).
Proof.
  simpl. repeat split; try discriminate.
  intros [H|[]]. discriminate.
Qed.

End FieldDetection.

(** * Further properties *)

(** ** What [escapeXml] writes *)

Section EscapedText.

Lemma all_chars_app (p : ascii -> bool) (a b : string) :
  all_chars p (a ++ b) = all_chars p a && all_chars p b.
Proof.
  induction a as [|c a IH]; simpl; [reflexivity|].
  now rewrite IH, andb_assoc.
Qed.

Lemma entity_no_raw_markup (c : ascii) :
  all_chars (fun x => negb (raw_markup x)) (entity c) = true.
Proof.
  unfold entity.
  destruct (Ascii.eqb c amp); [reflexivity|].
  destruct (Ascii.eqb c lt) eqn:Hlt; [reflexivity|].
  destruct (Ascii.eqb c gt) eqn:Hgt; [reflexivity|].
  destruct (Ascii.eqb c quot) eqn:Hquot; [reflexivity|].
  destruct (Ascii.eqb c apos) eqn:Hapos; [reflexivity|].
  simpl. unfold raw_markup. now rewrite Hlt, Hgt, Hquot, Hapos.
Qed.

Lemma escape_each_no_raw_markup (s : string) :
  all_chars (fun x => negb (raw_markup x)) (escape_each s) = true.
Proof.
  induction s as [|c s IH]; simpl; [reflexivity|].
  now rewrite all_chars_app, entity_no_raw_markup, IH.
Qed.

Lemma escapeXml_returns (m : member) (r : string) :
  escapeXml m = Ok r ->
  r = "" \/ exists s, m = Data (VStr s) /\ r = escape_each s.
Proof.
  unfold escapeXml. destruct (negb (truthy_member m)).
  - intros H. injection H as <-. now left.
  - destruct m as [[| | | |s| |]|]; try discriminate.
    intros H. injection H as <-. right. exists s.
    now rewrite replace_chain_escape_each.
Qed.

(** X1.  Whatever [escapeXml] returns holds no [<], no [>] and neither
    quote: placed in a text node or between the quotes of an attribute, it
    closes neither. *)
Theorem escapeXml_no_raw_markup (m : member) (r : string) :
  escapeXml m = Ok r ->
  all_chars (fun c => negb (raw_markup c)) r = true.
Proof.
  intros H. apply escapeXml_returns in H as [->|(s & _ & ->)];
    [reflexivity | apply escape_each_no_raw_markup].
Qed.

Lemma escapeXml_no_raw_markup_witness :
  all_chars (fun c => negb (raw_markup c)) "a &lt; b &amp;&amp; c &gt; d" = true.
Proof.
  apply (escapeXml_no_raw_markup (Data (VStr "a < b && c > d"))).
  reflexivity.
Defined.

Lemma entity_head (c : ascii) :
  is_meta c = true ->
  exists tail, entity c = String amp tail /\ 3 <= String.length tail.
Proof.
  unfold is_meta, entity.
  destruct (Ascii.eqb c amp); [intros _; eexists; split; [reflexivity|simpl; lia]|].
  destruct (Ascii.eqb c lt); [intros _; eexists; split; [reflexivity|simpl; lia]|].
  destruct (Ascii.eqb c gt); [intros _; eexists; split; [reflexivity|simpl; lia]|].
  destruct (Ascii.eqb c quot); [intros _; eexists; split; [reflexivity|simpl; lia]|].
  destruct (Ascii.eqb c apos); [intros _; eexists; split; [reflexivity|simpl; lia]|].
  discriminate.
Qed.

Lemma entity_plain (c : ascii) :
  is_meta c = false -> entity c = String c EmptyString.
Proof.
  unfold is_meta, entity. intros H.
  repeat (apply orb_false_elim in H as [H ?]).
  now repeat match goal with E : _ = false |- _ => rewrite E; clear E end.
Qed.

Lemma is_meta_cases (c : ascii) :
  is_meta c = true ->
  c = amp \/ c = lt \/ c = gt \/ c = quot \/ c = apos.
Proof.
  unfold is_meta. rewrite !orb_true_iff, !Ascii.eqb_eq. tauto.
Qed.

Lemma entity_inj (c1 c2 : ascii) (r1 r2 : string) :
  entity c1 ++ r1 = entity c2 ++ r2 -> c1 = c2 /\ r1 = r2.
Proof.
  assert (Hplain : forall c, is_meta c = false -> c <> amp).
  { intros c H ->. discriminate. }
  destruct (is_meta c1) eqn:M1, (is_meta c2) eqn:M2.
  - apply is_meta_cases in M1, M2.
    destruct M1 as [->|[->|[->|[->| ->]]]], M2 as [->|[->|[->|[->| ->]]]];
      simpl; intros H; solve [discriminate | split; congruence].
  - destruct (entity_head c1 M1) as (t & -> & _). rewrite (entity_plain c2 M2).
    simpl. intros H. injection H as H _. symmetry in H. now apply Hplain in H.
  - destruct (entity_head c2 M2) as (t & -> & _). rewrite (entity_plain c1 M1).
    simpl. intros H. injection H as H _. now apply Hplain in H.
  - rewrite (entity_plain c1 M1), (entity_plain c2 M2). simpl.
    intros H. now injection H.
Qed.

Lemma escape_each_inj (s1 s2 : string) :
  escape_each s1 = escape_each s2 -> s1 = s2.
Proof.
  revert s2. induction s1 as [|c1 s1 IH]; intros [|c2 s2]; simpl.
  - reflexivity.
  - intros H. exfalso. destruct (is_meta c2) eqn:M.
    + destruct (entity_head c2 M) as (t & E & _). rewrite E in H. discriminate.
    + rewrite (entity_plain c2 M) in H. discriminate.
  - intros H. exfalso. destruct (is_meta c1) eqn:M.
    + destruct (entity_head c1 M) as (t & E & _). rewrite E in H. discriminate.
    + rewrite (entity_plain c1 M) in H. discriminate.
  - intros H. apply entity_inj in H as [-> H]. now rewrite (IH _ H).
Qed.

(** X2.  Escaping loses nothing: two texts that [escapeXml] writes the
    same are the same text. *)
Theorem escapeXml_injective (s1 s2 : string) :
  escapeXml (Data (VStr s1)) = escapeXml (Data (VStr s2)) -> s1 = s2.
Proof.
  rewrite !escapeXml_text. intros H. injection H as H.
  now apply escape_each_inj.
Qed.

Lemma escapeXml_injective_witness : "a<b" = "a<b".
Proof. apply escapeXml_injective. reflexivity. Defined.

Lemma escape_each_length (s : string) :
  String.length s <= String.length (escape_each s).
Proof.
  induction s as [|c s IH]; simpl; [lia|].
  rewrite length_append. destruct (is_meta c) eqn:M.
  - destruct (entity_head c M) as (t & -> & Ht). simpl. lia.
  - rewrite (entity_plain c M). simpl. lia.
Qed.

Lemma escape_each_fixed (s : string) :
  escape_each s = s -> all_chars (fun c => negb (is_meta c)) s = true.
Proof.
  induction s as [|c s IH]; simpl; [reflexivity|].
  destruct (is_meta c) eqn:M.
  - destruct (entity_head c M) as (t & -> & Ht). simpl.
    intros H. injection H as _ H. exfalso.
    apply (f_equal String.length) in H. rewrite length_append in H.
    pose proof (escape_each_length s). lia.
  - rewrite (entity_plain c M). simpl. intros H. injection H as H. auto.
Qed.

(** X3.  Escaping is no idempotent operation: escaping an escaped text
    leaves it as it is exactly when the text holds none of the five
    metacharacters; any other text is escaped twice. *)
Theorem escapeXml_twice (s : string) :
  (exists r, escapeXml (Data (VStr s)) = Ok r
             /\ escapeXml (Data (VStr r)) = Ok r)
  <-> all_chars (fun c => negb (is_meta c)) s = true.
Proof.
  split.
  - intros (r & H1 & H2). rewrite escapeXml_text in H1, H2.
    injection H1 as <-. injection H2 as H2.
    apply escape_each_inj in H2. now apply escape_each_fixed.
  - intros H. exists s. rewrite escapeXml_text, (escape_each_plain s H). auto.
Qed.

Lemma escapeXml_twice_witness :
  exists r, escapeXml (Data (VStr "plain text")) = Ok r
            /\ escapeXml (Data (VStr r)) = Ok r.
Proof. apply escapeXml_twice. reflexivity. Defined.

End EscapedText.

(** ** The target map *)

Section TargetMap.

Lemma same_value_zero_eq (a b : value) : same_value_zero a b = true -> a = b.
Proof.
  destruct a, b; simpl; try discriminate; try reflexivity.
  - intros H. apply Bool.eqb_prop in H. now subst.
  - intros H. apply String.eqb_eq in H. now subst.
  - intros H. apply String.eqb_eq in H. now subst.
Qed.

Lemma map_get_map_set (m : target_map) (k u : value) (item : obj) :
  map_get (map_set m k item) u
  = if same_value_zero k u then Some item else map_get m u.
Proof.
  induction m as [|[k' item'] m IH]; simpl.
  - reflexivity.
  - destruct (same_value_zero k' k) eqn:Hk; simpl.
    + apply same_value_zero_eq in Hk. subst k'.
      now destruct (same_value_zero k u).
    + destruct (same_value_zero k' u) eqn:Hu; [|exact IH].
      destruct (same_value_zero k u) eqn:Hku; [|reflexivity].
      apply same_value_zero_eq in Hku. subst u. congruence.
Qed.

Lemma targetMap_snoc (targetData : list obj) (item : obj) :
  targetMap (targetData ++ [item])
  = if truthy (get item "uuid")
    then map_set (targetMap targetData) (get item "uuid") item
    else targetMap targetData.
Proof. unfold targetMap. now rewrite fold_left_app. Qed.

Lemma targetMap_last_target (targetData : list obj) (u : value) :
  map_get (targetMap targetData) u = last_target targetData u.
Proof.
  unfold last_target.
  induction targetData as [|item rest IH] using rev_ind; [reflexivity|].
  rewrite targetMap_snoc, rev_app_distr. simpl. unfold carries at 1.
  destruct (truthy (get item "uuid")); simpl; [|exact IH].
  rewrite map_get_map_set.
  now destruct (same_value_zero (get item "uuid") u).
Qed.

Lemma find_app_skip {A : Type} (p : A -> bool) (l1 l2 : list A) :
  (forall x, In x l1 -> p x = false) -> find p (l1 ++ l2) = find p l2.
Proof.
  induction l1 as [|x l1 IH]; simpl; intros H; [reflexivity|].
  rewrite (H x) by now left. apply IH. intros y Hy. apply H. now right.
Qed.

(** X4.  The record [targetMap] gives for an identifier is the last record
    of the target array that carries it: when several target records share
    an identifier, the later one replaces the earlier. *)
Theorem targetMap_last_record_wins (before after : list obj) (item : obj)
  (uuid : string) :
  get item "uuid" = VStr uuid ->
  uuid <> "" ->
  Forall (fun t => get t "uuid" <> VStr uuid) after ->
  map_get (targetMap (before ++ item :: after)) (VStr uuid) = Some item.
Proof.
  intros Hu Hne Hafter. rewrite targetMap_last_target. unfold last_target.
  rewrite rev_app_distr. simpl. rewrite <- app_assoc. simpl.
  rewrite find_app_skip.
  - simpl. unfold carries. rewrite Hu. simpl.
    apply String.eqb_neq in Hne. now rewrite Hne, String.eqb_refl.
  - intros t Ht. apply in_rev in Ht. rewrite Forall_forall in Hafter.
    specialize (Hafter t Ht). unfold carries.
    destruct (same_value_zero (get t "uuid") (VStr uuid)) eqn:E;
      [|now rewrite andb_false_r].
    now apply same_value_zero_eq in E.
Qed.

Lemma targetMap_last_record_witness :
  map_get
    (targetMap
       ([ [("uuid", VStr "X"); ("title", VStr "old")] ]
        ++ [("uuid", VStr "X"); ("title", VStr "new")]
        :: [ [("uuid", VStr "Y"); ("title", VStr "other")] ]))
    (VStr "X")
  = Some [("uuid", VStr "X"); ("title", VStr "new")].
Proof.
  apply targetMap_last_record_wins.
  - reflexivity.
  - discriminate.
  - repeat constructor. discriminate.
Defined.

End TargetMap.

(** ** A whole run of the consolidation *)

Section WholeRun.

Lemma render_units_app (a b : list trans_unit) :
  render_units (a ++ b) = render_units a ++ render_units b.
Proof.
  induction a as [|u a IH]; cbn [render_units app]; [reflexivity|].
  now rewrite IH, append_assoc.
Qed.

Lemma extend_nothing (st : emitted) : extend st [] [] = st.
Proof.
  destruct st as [t n w]. unfold extend. simpl.
  now rewrite append_nil_r, Nat.add_0_r, app_nil_r.
Qed.

Lemma extend_extend (st : emitted) (u1 u2 : list trans_unit) (w1 w2 : list string) :
  extend (extend st u1 w1) u2 w2 = extend st (u1 ++ u2) (w1 ++ w2).
Proof.
  unfold extend. simpl.
  rewrite render_units_app, append_assoc, length_app, Nat.add_assoc.
  now rewrite <- app_assoc.
Qed.

Lemma emit_extend (st : emitted) (u : trans_unit) : emit st u = extend st [u] [].
Proof.
  unfold emit, extend. simpl.
  now rewrite append_nil_r, Nat.add_1_r, app_nil_r.
Qed.

Lemma warn_extend (st : emitted) (line : string) : warn st line = extend st [] [line].
Proof.
  unfold warn, extend. simpl. now rewrite append_nil_r, Nat.add_0_r.
Qed.

Lemma field_step_unit (sourceItem targetItem : obj) (uuid : string)
  (fields : list string) (st : emitted) (fieldName : string) :
  get sourceItem "uuid" = VStr uuid ->
  text_fields fields targetItem ->
  In fieldName fields ->
  field_step sourceItem targetItem st fieldName
  = Ok (extend st (unit_of_field sourceItem targetItem fieldName) []).
Proof.
  intros Hu Ht Hin. unfold unit_of_field.
  destruct (nonblank_string (read sourceItem fieldName)) eqn:Hs.
  - apply nonblank_string_inv in Hs as (text & Hs & Hb).
    destruct (Ht _ Hin) as (target & Htarget).
    rewrite Hs, Hb, Htarget, <- emit_extend.
    unfold id_text. rewrite Hu.
    now apply field_step_emit.
  - rewrite (field_step_skip _ _ _ _ Hs).
    destruct (read sourceItem fieldName) as [[| | | |text| |]|];
      try now rewrite extend_nothing.
    simpl in Hs. apply negb_false_iff in Hs. rewrite Hs.
    now rewrite extend_nothing.
Qed.

Lemma forEach_field_step_units (sourceItem targetItem : obj) (uuid : string)
  (fields : list string) :
  get sourceItem "uuid" = VStr uuid ->
  text_fields fields targetItem ->
  forall l st,
    incl l fields ->
    forEach (field_step sourceItem targetItem) l st
    = Ok (extend st (units_of_pair l sourceItem targetItem) []).
Proof.
  intros Hu Ht. induction l as [|f l IH]; intros st Hincl; cbn [forEach].
  - now rewrite extend_nothing.
  - rewrite (field_step_unit sourceItem targetItem uuid fields st f Hu Ht)
      by (apply Hincl; now left).
    cbn [bind]. rewrite IH by (intros x Hx; apply Hincl; now right).
    now rewrite extend_extend.
Qed.

Lemma last_target_In (targetData : list obj) (u : value) (t : obj) :
  last_target targetData u = Some t -> In t targetData.
Proof.
  unfold last_target. intros H. apply find_some in H as [H _].
  now apply in_rev in H.
Qed.

Lemma forEach_item_step_units (fields : list string) (targetData : list obj)
  (sourceData : list obj) :
  Forall text_identifier sourceData ->
  Forall (text_fields fields) targetData ->
  forall st,
    forEach (item_step fields (targetMap targetData)) sourceData st
    = Ok (extend st (units_of fields targetData sourceData)
            (warnings_of targetData sourceData)).
Proof.
  intros Hs Ht. induction Hs as [|s l Hid _ IH]; intros st; cbn [forEach].
  - now rewrite extend_nothing.
  - assert (Hstep :
             item_step fields (targetMap targetData) st s
             = Ok (extend st (units_of fields targetData [s])
                     (warnings_of targetData [s]))).
    { unfold item_step, units_of, warnings_of. cbn [flat_map].
      rewrite !app_nil_r, targetMap_last_target.
      destruct (truthy (get s "uuid")) eqn:Hu; cbn [negb];
        [|now rewrite extend_nothing].
      destruct Hid as [Hid|(uuid & Hid)]; [congruence|].
      destruct (last_target targetData (get s "uuid")) as [t|] eqn:Hl.
      - apply last_target_In in Hl. rewrite Forall_forall in Ht.
        apply (forEach_field_step_units s t uuid fields Hid (Ht _ Hl)).
        apply incl_refl.
      - unfold id_text. rewrite Hid. cbn [to_string bind].
        now rewrite warn_extend. }
    rewrite Hstep. cbn [bind]. rewrite IH, extend_extend.
    change (s :: l) with ([s] ++ l)%list.
    unfold units_of, warnings_of. now rewrite !flat_map_app.
Qed.

Lemma generateXliffContent_text_run (sourceData targetData : list obj)
  (sourceLang targetLang : string) (first : obj) :
  firstSourceItem sourceData = Some first ->
  Forall text_identifier sourceData ->
  Forall (text_fields (translatableFields first)) targetData ->
  generateXliffContent sourceData targetData sourceLang targetLang
  = Ok ({| content :=
             document sourceLang targetLang
               (render_units
                  (units_of (translatableFields first) targetData sourceData));
           xliff_unitCount :=
             List.length
               (units_of (translatableFields first) targetData sourceData);
           fieldCount := List.length (translatableFields first) |},
        warnings_of targetData sourceData).
Proof.
  intros Hfirst Hs Ht. unfold generateXliffContent. rewrite Hfirst.
  now rewrite (forEach_item_step_units _ _ _ Hs Ht).
Qed.


(** X5.  When the identifiers of the source records are texts and the
    values of the translatable fields in the target records are texts (or
    missing), a run returns the document around the units of the source
    records in their order, each paired with the last target record of its
    identifier and giving its units in the order of the fields; the number
    of units reported is the number written, and there is one warning, in
    order, per source record that has no target record. *)
Theorem generateXliffContent_units (sourceData targetData : list obj)
  (sourceLang targetLang : string) (first : obj) :
  firstSourceItem sourceData = Some first ->
  Forall text_identifier sourceData ->
  Forall (text_fields (translatableFields first)) targetData ->
  generateXliffContent sourceData targetData sourceLang targetLang
  = Ok ({| content :=
             document sourceLang targetLang
               (render_units
                  (units_of (translatableFields first) targetData sourceData));
           xliff_unitCount :=
             List.length
               (units_of (translatableFields first) targetData sourceData);
           fieldCount := List.length (translatableFields first) |},
        warnings_of targetData sourceData).
Proof. apply generateXliffContent_text_run. Qed.

Lemma generateXliffContent_units_witness :
  generateXliffContent
    [ [("uuid", VStr "X"); ("title", VStr "A"); ("body", VStr "B")];
      [("uuid", VStr "Y"); ("title", VStr "C")];
      [("uuid", VStr "Z"); ("title", VStr "D"); ("body", VStr " ")] ]
    [ [("uuid", VStr "Z"); ("title", VStr "old")];
      [("uuid", VStr "X"); ("title", VStr "T")];
      [("uuid", VStr "Z"); ("title", VStr "new"); ("body", VStr "unused")] ]
    "en" "ko"
  = Ok ({| content :=
             document "en" "ko"
               (render_units
                  [ {| unit_id := "X_title"; unit_source := "A";
                       unit_target := "T"; unit_note := "title for UUID: X" |};
                    {| unit_id := "X_body"; unit_source := "B";
                       unit_target := ""; unit_note := "body for UUID: X" |};
                    {| unit_id := "Z_title"; unit_source := "D";
                       unit_target := "new"; unit_note := "title for UUID: Z" |} ]);
           xliff_unitCount := 3;
           fieldCount := 2 |},
        [missing_target_warning "Y"]).
Proof.
  apply (generateXliffContent_units
           [ [("uuid", VStr "X"); ("title", VStr "A"); ("body", VStr "B")];
             [("uuid", VStr "Y"); ("title", VStr "C")];
             [("uuid", VStr "Z"); ("title", VStr "D"); ("body", VStr " ")] ]
           [ [("uuid", VStr "Z"); ("title", VStr "old")];
             [("uuid", VStr "X"); ("title", VStr "T")];
             [("uuid", VStr "Z"); ("title", VStr "new"); ("body", VStr "unused")] ]
           "en" "ko"
           [("uuid", VStr "X"); ("title", VStr "A"); ("body", VStr "B")]).
  - reflexivity.
  - repeat (apply Forall_cons; [right; eexists; reflexivity|]). apply Forall_nil.
  - repeat (apply Forall_cons;
            [intros f [<-|[<-|[]]]; eexists; reflexivity|]).
    apply Forall_nil.
Defined.

End WholeRun.

Section SourceDriven.

Lemma forEach_ext_in {A S : Type} (f g : S -> A -> result S) (l : list A) :
  (forall x, In x l -> forall s, f s x = g s x) ->
  forall s, forEach f l s = forEach g l s.
Proof.
  induction l as [|x l IH]; intros H s; simpl; [reflexivity|].
  rewrite (H x) by now left.
  destruct (g s x) as [s'|e]; simpl; [|reflexivity].
  apply IH. intros y Hy. apply H. now right.
Qed.

Lemma item_step_ext (fields : list string) (tmap1 tmap2 : target_map)
  (st : emitted) (sourceItem : obj) :
  map_get tmap1 (get sourceItem "uuid") = map_get tmap2 (get sourceItem "uuid") ->
  item_step fields tmap1 st sourceItem = item_step fields tmap2 st sourceItem.
Proof. intros H. unfold item_step. now rewrite H. Qed.

Lemma find_remove {A : Type} (p : A -> bool) (l1 l2 : list A) (x : A) :
  p x = false -> find p (l1 ++ x :: l2) = find p (l1 ++ l2).
Proof.
  intros Hx. induction l1 as [|y l1 IH]; simpl; [now rewrite Hx|].
  now rewrite IH.
Qed.

(** X6.  The source records drive the run: a target record that carries
    the identifier of no source record (or no identifier at all) is never
    looked at, and the run gives the same result, units, counts and
    warnings, without it. *)
Theorem generateXliffContent_ignores_unpaired_target
  (sourceData before after : list obj) (item : obj)
  (sourceLang targetLang : string) :
  Forall (fun sourceItem => carries (get sourceItem "uuid") item = false)
    sourceData ->
  generateXliffContent sourceData (before ++ item :: after) sourceLang targetLang
  = generateXliffContent sourceData (before ++ after) sourceLang targetLang.
Proof.
  intros Hno. unfold generateXliffContent.
  destruct (firstSourceItem sourceData) as [first|]; [|reflexivity].
  rewrite (forEach_ext_in
             (item_step (translatableFields first)
                (targetMap (before ++ item :: after)))
             (item_step (translatableFields first)
                (targetMap (before ++ after)))); [reflexivity|].
  intros s Hs st. apply item_step_ext.
  rewrite !targetMap_last_target. unfold last_target.
  rewrite !rev_app_distr. simpl. rewrite <- app_assoc. simpl.
  apply find_remove.
  rewrite Forall_forall in Hno. exact (Hno s Hs).
Qed.

Lemma generateXliffContent_ignores_unpaired_witness :
  generateXliffContent
    [ [("uuid", VStr "X"); ("title", VStr "A")] ]
    ([ [("uuid", VStr "X"); ("title", VStr "T")] ]
     ++ [("uuid", VStr "Q"); ("title", VStr "never read")]
     :: [])
    "en" "ko"
  = generateXliffContent
      [ [("uuid", VStr "X"); ("title", VStr "A")] ]
      ([ [("uuid", VStr "X"); ("title", VStr "T")] ] ++ [])
      "en" "ko".
Proof.
  apply generateXliffContent_ignores_unpaired_target.
  repeat constructor.
Defined.

Lemma field_step_counts (sourceItem targetItem : obj) (st st' : emitted)
  (fieldName : string) :
  field_step sourceItem targetItem st fieldName = Ok st' ->
  warnings st' = warnings st /\ unitCount st' <= S (unitCount st).
Proof.
  unfold field_step.
  destruct (negb (truthy_member (read sourceItem fieldName))
            || negb (nonblank_string (read sourceItem fieldName))).
  - intros H. injection H as <-. auto.
  - intros H.
    repeat match type of H with
           | bind ?r _ = Ok _ => destruct r; cbn [bind] in H; [|discriminate]
           end.
    injection H as <-. simpl. auto.
Qed.

Lemma forEach_field_step_counts (sourceItem targetItem : obj) (l : list string) :
  forall st st',
    forEach (field_step sourceItem targetItem) l st = Ok st' ->
    warnings st' = warnings st
    /\ unitCount st' <= unitCount st + List.length l.
Proof.
  induction l as [|f l IH]; intros st st'; cbn [forEach].
  - intros H. injection H as <-. simpl. split; [reflexivity | lia].
  - destruct (field_step sourceItem targetItem st f) as [st1|e] eqn:E;
      cbn [bind]; [|discriminate].
    intros H. apply IH in H as [Hw Hc].
    apply field_step_counts in E as [Hw1 Hc1]. simpl.
    split; [congruence | lia].
Qed.

Lemma item_step_counts (fields : list string) (tmap : target_map)
  (st st' : emitted) (sourceItem : obj) :
  item_step fields tmap st sourceItem = Ok st' ->
  unitCount st' + List.length fields * List.length (warnings st')
  <= unitCount st + List.length fields * List.length (warnings st)
     + List.length fields.
Proof.
  unfold item_step. destruct (negb (truthy (get sourceItem "uuid"))).
  - intros H. injection H as <-. lia.
  - destruct (map_get tmap (get sourceItem "uuid")) as [t|].
    + intros H. apply forEach_field_step_counts in H as [-> Hc]. lia.
    + destruct (to_string (get sourceItem "uuid")); cbn [bind]; [|discriminate].
      intros H. injection H as <-. unfold warn. simpl.
      rewrite length_app. simpl. lia.
Qed.

Lemma forEach_item_step_counts (fields : list string) (tmap : target_map)
  (l : list obj) :
  forall st st',
    forEach (item_step fields tmap) l st = Ok st' ->
    unitCount st' + List.length fields * List.length (warnings st')
    <= unitCount st + List.length fields * List.length (warnings st)
       + List.length fields * List.length l.
Proof.
  induction l as [|s l IH]; intros st st'; cbn [forEach].
  - intros H. injection H as <-. simpl. lia.
  - destruct (item_step fields tmap st s) as [st1|e] eqn:E;
      cbn [bind]; [|discriminate].
    intros H. apply IH in H. apply item_step_counts in E. simpl. lia.
Qed.

(** X7.  Whenever a run returns, for any input: each source record gives
    at most one unit per translatable field or one warning, never both, so
    the number of units and the number of fields times the number of
    warnings together stay within the number of fields times the number of
    source records. *)
Theorem generateXliffContent_counts (sourceData targetData : list obj)
  (sourceLang targetLang : string) (x : xliff) (w : list string) :
  generateXliffContent sourceData targetData sourceLang targetLang = Ok (x, w) ->
  xliff_unitCount x + fieldCount x * List.length w
  <= fieldCount x * List.length sourceData.
Proof.
  unfold generateXliffContent.
  destruct (firstSourceItem sourceData) as [first|]; [|discriminate].
  destruct (forEach (item_step (translatableFields first) (targetMap targetData))
              sourceData start) as [st|e] eqn:E; cbn [bind]; [|discriminate].
  intros H. injection H as <- <-. simpl.
  apply forEach_item_step_counts in E. simpl in E. lia.
Qed.

Lemma generateXliffContent_counts_witness : 1 + 1 * 1 <= 1 * 2.
Proof.
  apply (generateXliffContent_counts
           [ [("uuid", VStr "X"); ("title", VStr "A")];
             [("uuid", VStr "Y"); ("title", VStr "B")] ]
           [ [("uuid", VStr "X"); ("title", VStr "T")] ]
           "en" "ko"
           {| content :=
                document "en" "ko"
                  (render_unit {| unit_id := "X_title"; unit_source := "A";
                                  unit_target := "T";
                                  unit_note := "title for UUID: X" |});
              xliff_unitCount := 1;
              fieldCount := 1 |}
           [missing_target_warning "Y"]).
  reflexivity.
Defined.

End SourceDriven.

(** ** The flattening loop on any array *)

Section FlattenAny.

Lemma flatten_step_upsert (pairs : list (string * obj)) (item : obj) (id : string) :
  qualifies item = true ->
  to_string (get item "uuid") = Ok id ->
  flatten_step (source_of pairs, target_of pairs) item
  = Ok (source_of (upsert pairs id item), target_of (upsert pairs id item)).
Proof.
  intros Hq Hid. unfold flatten_step. rewrite Hq, Hid. cbn [bind].
  f_equal. f_equal.
  - exact (obj_set_flat_of (fun i => get i "title") (fun i => get i "body")
             id item pairs).
  - exact (obj_set_flat_of (fun _ => VStr "") (fun _ => VStr "") id item pairs).
Qed.

Lemma forEach_flatten_collect (jsonData : list obj) :
  forall (ids : list string) (pairs : list (string * obj)),
    Forall2 (fun item id => to_string (get item "uuid") = Ok id)
      (filter qualifies jsonData) ids ->
    forEach flatten_step jsonData (source_of pairs, target_of pairs)
    = Ok (source_of
            (fold_left (fun ps e => upsert ps (fst e) (snd e))
               (combine ids (filter qualifies jsonData)) pairs),
          target_of
            (fold_left (fun ps e => upsert ps (fst e) (snd e))
               (combine ids (filter qualifies jsonData)) pairs)).
Proof.
  induction jsonData as [|item rest IH]; intros ids pairs Hids;
    cbn [forEach filter] in *.
  - inversion Hids; subst. reflexivity.
  - destruct (qualifies item) eqn:Hq.
    + inversion Hids as [|? id ? ids' Hid Hrest]; subst.
      rewrite (flatten_step_upsert pairs item id Hq Hid). cbn [bind].
      rewrite (IH ids' _ Hrest). reflexivity.
    + rewrite flatten_step_skip by assumption. cbn [bind]. now apply IH.
Qed.

Lemma collect_snoc (entries : list (string * obj)) (e : string * obj) :
  collect (entries ++ [e]) = upsert (collect entries) (fst e) (snd e).
Proof. unfold collect. now rewrite fold_left_app. Qed.

Lemma collect_fst (entries : list (string * obj)) :
  map fst (collect entries) = first_occurrences (map fst entries).
Proof.
  induction entries as [|e l IH] using rev_ind; [reflexivity|].
  rewrite collect_snoc, upsert_fst, IH, map_app. simpl.
  now rewrite first_occurrences_snoc, mem_first_occurrences.
Qed.

Lemma upsert_has (pairs : list (string * obj)) (id : string) (item : obj) :
  In (id, item) (upsert pairs id item).
Proof.
  induction pairs as [|[id' item'] pairs IH]; simpl; [now left|].
  destruct (String.eqb_spec id' id) as [->|_]; [now left | now right].
Qed.

Lemma upsert_keeps (pairs : list (string * obj)) (id : string) (item : obj)
  (p : string * obj) :
  In p pairs -> fst p <> id -> In p (upsert pairs id item).
Proof.
  induction pairs as [|[id' item'] pairs IH]; simpl; [tauto|].
  intros [<-|Hin] Hne.
  - simpl in Hne. destruct (String.eqb_spec id' id); [contradiction | now left].
  - destruct (String.eqb id' id); right; [assumption | now apply IH].
Qed.

Lemma collect_last (before after : list (string * obj)) (id : string) (item : obj) :
  ~ In id (map fst after) ->
  In (id, item) (collect (before ++ (id, item) :: after)).
Proof.
  induction after as [|e after IH] using rev_ind; intros Hfresh.
  - change (before ++ [(id, item)])%list with (before ++ [(id, item)])%list.
    rewrite collect_snoc. apply upsert_has.
  - rewrite map_app, in_app_iff in Hfresh. simpl in Hfresh.
    change (before ++ (id, item) :: after ++ [e])%list
      with (before ++ ((id, item) :: after) ++ [e])%list.
    rewrite app_assoc, collect_snoc.
    apply upsert_keeps; [apply IH; tauto|]. simpl. intros E. apply Hfresh.
    right. left. now symmetry.
Qed.

Lemma combine_fst {A B : Type} (l : list A) (l' : list B) :
  List.length l = List.length l' -> map fst (combine l l') = l.
Proof.
  revert l'. induction l as [|x l IH]; intros [|y l']; simpl; try discriminate.
  - reflexivity.
  - intros H. f_equal. apply IH. lia.
Qed.

Lemma target_of_empty (pairs : list (string * obj)) :
  Forall (fun p => snd p = VStr "") (target_of pairs).
Proof.
  unfold target_of. induction pairs as [|p pairs IH]; simpl;
    repeat constructor. exact IH.
Qed.

(** X8.  On any array the flattening returns for, with [ids] the texts of
    the identifiers of the qualifying records: both mappings hold the keys
    [id_title], [id_body] once per distinct identifier, in the order in
    which the identifiers first occur; every value of the target mapping is
    the empty text; and under the keys of an identifier the source mapping
    holds the title and the body of the last qualifying record that carries
    it. *)
Theorem flatten_last_write_wins (jsonData : list obj) (ids : list string) :
  Forall2 (fun item id => to_string (get item "uuid") = Ok id)
    (filter qualifies jsonData) ids ->
  exists sourceJson targetJson,
    flatten jsonData = Ok (sourceJson, targetJson)
    /\ keys sourceJson = flat_map keys_of_id (first_occurrences ids)
    /\ keys targetJson = keys sourceJson
    /\ NoDup (keys sourceJson)
    /\ Forall (fun p => snd p = VStr "") targetJson
    /\ (forall before after id item,
           combine ids (filter qualifies jsonData)
           = (before ++ (id, item) :: after)%list ->
           ~ In id (map fst after) ->
           get sourceJson (title_key id) = get item "title"
           /\ get sourceJson (body_key id) = get item "body").
Proof.
  intros Hids.
  pose proof (Forall2_length Hids) as Hlen.
  set (entries := combine ids (filter qualifies jsonData)).
  assert (Hfst : map fst entries = ids) by (apply combine_fst; lia).
  exists (source_of (collect entries)), (target_of (collect entries)).
  assert (Hkeys : keys (source_of (collect entries))
                  = flat_map keys_of_id (first_occurrences ids)).
  { now rewrite keys_source_of, collect_fst, Hfst. }
  assert (Hnd : NoDup (keys (source_of (collect entries)))).
  { rewrite Hkeys. apply keys_of_ids_NoDup, first_occurrences_NoDup. }
  split; [exact (forEach_flatten_collect jsonData ids [] Hids)|].
  split; [exact Hkeys|].
  split; [now rewrite keys_target_of, keys_source_of|].
  split; [exact Hnd|].
  split; [apply target_of_empty|].
  intros before after id item E Hfresh.
  pose proof (collect_last before after id item Hfresh) as Hin.
  rewrite <- E in Hin.
  destruct (source_of_In _ _ Hin) as [Ht Hb]. simpl in Ht, Hb.
  unfold get.
  now rewrite (lookup_NoDup _ _ _ Hnd Ht), (lookup_NoDup _ _ _ Hnd Hb).
Qed.

Lemma flatten_last_write_wins_witness :
  exists sourceJson targetJson,
    flatten
      [ [("uuid", VStr "a"); ("title", VStr "T1"); ("body", VStr "B1")];
        [("uuid", VStr "b"); ("title", VStr "U"); ("body", VStr "C")];
        [("uuid", VStr "a"); ("title", VStr "T2"); ("body", VStr "B2")] ]
    = Ok (sourceJson, targetJson)
    /\ keys sourceJson = ["a_title"; "a_body"; "b_title"; "b_body"]
    /\ keys targetJson = keys sourceJson.
Proof.
  destruct (flatten_last_write_wins
              [ [("uuid", VStr "a"); ("title", VStr "T1"); ("body", VStr "B1")];
                [("uuid", VStr "b"); ("title", VStr "U"); ("body", VStr "C")];
                [("uuid", VStr "a"); ("title", VStr "T2"); ("body", VStr "B2")] ]
              ["a"; "b"; "a"])
    as (sourceJson & targetJson & H & Hk & Ht & _).
  - simpl. repeat constructor.
  - exists sourceJson, targetJson. repeat split; assumption.
Defined.

Lemma flatten_step_throws (st : obj * obj) (item : obj) (e : exn) :
  flatten_step st item = Throw e ->
  qualifies item = true /\ to_string (get item "uuid") = Throw e.
Proof.
  destruct st as [sourceJson targetJson]. unfold flatten_step.
  destruct (qualifies item); [|discriminate].
  destruct (to_string (get item "uuid")) as [id|e']; cbn [bind];
    [discriminate|]. intros H. injection H as <-. auto.
Qed.

Lemma flatten_step_returns (st : obj * obj) (item : obj) :
  (qualifies item = true -> primitive (get item "uuid") = true) ->
  exists st', flatten_step st item = Ok st'.
Proof.
  intros Hp. destruct st as [sourceJson targetJson]. unfold flatten_step.
  destruct (qualifies item); [|now eexists].
  specialize (Hp eq_refl).
  destruct (get item "uuid"); try discriminate; cbn [to_string bind];
    now eexists.
Qed.

Lemma element_step_throws (st : obj * obj) (v : value) (e : exn) :
  JsonToXliffArray.element_step st v = Throw e ->
  e = TypeError
  /\ (v = VNull \/ v = VUndefined
      \/ exists item,
          v = VObj item /\ qualifies item = true
          /\ primitive (get item "uuid") = false
          /\ to_string (get item "uuid") = Throw TypeError).
Proof.
  destruct v as [| |b|repr|s|elems|item]; simpl; try discriminate.
  - intros H. injection H as <-. auto.
  - intros H. injection H as <-. auto.
  - intros H. apply flatten_step_throws in H as [Hq Ht].
    pose proof (to_string_throws _ _ Ht) as ->.
    split; [reflexivity|]. right. right. exists item.
    split; [reflexivity|]. split; [assumption|]. split; [|assumption].
    destruct (get item "uuid"); try discriminate; reflexivity.
Qed.

Lemma element_step_returns (st : obj * obj) (v : value) :
  flattens v = true -> exists st', JsonToXliffArray.element_step st v = Ok st'.
Proof.
  destruct v as [| |b|repr|s|elems|item]; simpl; try discriminate;
    try (intros _; now exists st).
  intros H. apply flatten_step_returns. intros Hq.
  rewrite Hq in H. exact H.
Qed.

Lemma forEach_element_step_records (records : list obj) (st : obj * obj) :
  forEach JsonToXliffArray.element_step (map VObj records) st
  = forEach flatten_step records st.
Proof.
  revert st. induction records as [|r l IH]; intros st; cbn [map forEach];
    [reflexivity|].
  cbn [JsonToXliffArray.element_step].
  destruct (flatten_step st r) as [st'|e]; cbn [bind]; [apply IH | reflexivity].
Qed.

(** X9.  On the array [JSON.parse] gave, whatever its elements, the
    flattening loop can only fail with a [TypeError], and only at a [null]
    element or at a qualifying record whose identifier is an array or an
    object that a template literal cannot print.  An array that holds a
    [null] always fails; an array without [null] in which the identifiers
    of the qualifying records are texts, numbers or booleans returns; and
    on an array of records the loop is the one on the records. *)
Theorem flatten_array_fails_only_on_null_or_unprintable (jsonData : list value) :
  (forall e,
      JsonToXliffArray.flatten_array jsonData = Throw e ->
      e = TypeError
      /\ (In VNull jsonData \/ In VUndefined jsonData
          \/ exists item,
              In (VObj item) jsonData /\ qualifies item = true
              /\ primitive (get item "uuid") = false
              /\ to_string (get item "uuid") = Throw TypeError))
  /\ (In VNull jsonData ->
      JsonToXliffArray.flatten_array jsonData = Throw TypeError)
  /\ (Forall (fun v => flattens v = true) jsonData ->
      exists sourceJson targetJson,
        JsonToXliffArray.flatten_array jsonData = Ok (sourceJson, targetJson))
  /\ (forall records,
         jsonData = map VObj records ->
         JsonToXliffArray.flatten_array jsonData = flatten records).
Proof.
  unfold JsonToXliffArray.flatten_array, flatten.
  split; [|split; [|split]].
  - generalize (@nil (string * value), @nil (string * value)).
    induction jsonData as [|v rest IH]; intros st e; cbn [forEach];
      [discriminate|].
    intros H. apply bind_throws in H as [H|(st' & _ & H)].
    + apply element_step_throws in H as (-> & [->|[->|(item & -> & Hi)]]).
      * split; [reflexivity|]. left. now left.
      * split; [reflexivity|]. right. left. now left.
      * split; [reflexivity|]. right. right. exists item.
        split; [now left | exact Hi].
    + destruct (IH st' e H) as (-> & [Hn|[Hu|(item & Hin & Hi)]]).
      * split; [reflexivity|]. left. now right.
      * split; [reflexivity|]. right. left. now right.
      * split; [reflexivity|]. right. right. exists item.
        split; [now right | exact Hi].
  - generalize (@nil (string * value), @nil (string * value)).
    induction jsonData as [|v rest IH]; intros st Hin; cbn [forEach];
      [contradiction|].
    destruct Hin as [->|Hin]; [reflexivity|].
    destruct (JsonToXliffArray.element_step st v) as [st'|e] eqn:E; cbn [bind].
    + now apply IH.
    + now apply element_step_throws in E as [-> _].
  - generalize (@nil (string * value), @nil (string * value)).
    induction jsonData as [|v rest IH]; intros st Hall; cbn [forEach].
    + destruct st as [a b]. now exists a, b.
    + inversion Hall as [|? ? Hv Hrest]; subst.
      destruct (element_step_returns st v Hv) as (st' & ->). cbn [bind].
      now apply IH.
  - intros records ->. apply forEach_element_step_records.
Qed.

Lemma flatten_array_fails_only_witness :
  (exists sourceJson targetJson,
      JsonToXliffArray.flatten_array
        [ VObj [("uuid", VNum "7"); ("title", VStr "T"); ("body", VStr "B")];
          VStr "stray";
          VObj [("uuid", VObj [("toString", VNum "1")]); ("title", VStr "")] ]
      = Ok (sourceJson, targetJson))
  /\ JsonToXliffArray.flatten_array
       [ VObj [("uuid", VStr "a"); ("title", VStr "T"); ("body", VStr "B")];
         VNull ]
     = Throw TypeError.
Proof.
  split.
  - apply (proj1 (proj2 (proj2 (flatten_array_fails_only_on_null_or_unprintable
             [ VObj [("uuid", VNum "7"); ("title", VStr "T"); ("body", VStr "B")];
               VStr "stray";
               VObj [("uuid", VObj [("toString", VNum "1")]); ("title", VStr "")] ])))).
    repeat (apply Forall_cons; [reflexivity|]). apply Forall_nil.
  - apply (proj1 (proj2 (flatten_array_fails_only_on_null_or_unprintable
             [ VObj [("uuid", VStr "a"); ("title", VStr "T"); ("body", VStr "B")];
               VNull ]))).
    right. left. reflexivity.
Defined.

End FlattenAny.

(** ** More round trips *)

Section MoreRoundTrips.

Lemma source_of_matched (pairs : list (string * obj)) :
  pairs <> [] ->
  Forall well_formed pairs ->
  existsb is_match (keys (source_of pairs)) = true.
Proof.
  intros Hne Hwf. destruct pairs as [|p rest]; [contradiction|].
  inversion Hwf as [|? ? Hp _]; subst.
  destruct (well_formed_inv _ Hp) as (Hlen & Hall & _).
  cbn [source_of flat_map source_entries keys map app existsb fst].
  unfold is_match at 1, title_key.
  now rewrite (uuidMatch_title_key _ Hlen Hall).
Qed.

Lemma by_identifier_well_formed (jsonData : list obj) :
  Forall (fun r => valid_record r = true) jsonData ->
  NoDup (map fst (by_identifier jsonData))
  /\ Forall well_formed (by_identifier jsonData).
Proof.
  intros Hvalid. split.
  - rewrite by_identifier_fst. apply first_occurrences_NoDup.
  - apply Forall_forall. intros [id item] Hin.
    destruct (by_identifier_last _ _ _ Hin) as (before & after & E & Hid & _).
    split; [|exact Hid]. rewrite Forall_forall in Hvalid. apply Hvalid.
    rewrite E. apply in_elt.
Qed.

Lemma rebuilt_qualifies (p : string * obj) :
  well_formed p -> qualifies (rebuilt p) = true.
Proof.
  intros Hp. destruct (well_formed_inv _ Hp) as (Hlen & _ & _ & Ht & Hb).
  unfold qualifies.
  change (get (rebuilt p) "uuid") with (VStr (fst p)).
  change (get (rebuilt p) "title") with (get (snd p) "title").
  change (get (rebuilt p) "body") with (get (snd p) "body").
  rewrite Ht, Hb.
  destruct (fst p); [discriminate | reflexivity].
Qed.

Lemma flatten_rebuilt (pairs : list (string * obj)) :
  NoDup (map fst pairs) ->
  Forall well_formed pairs ->
  flatten (map rebuilt pairs) = Ok (source_of pairs, target_of pairs).
Proof.
  intros Hnd Hwf.
  assert (Hq : filter qualifies (map rebuilt pairs) = map rebuilt pairs).
  { apply forallb_filter_id, forallb_forall. intros r Hr.
    apply in_map_iff in Hr as (p & <- & Hp). apply rebuilt_qualifies.
    rewrite Forall_forall in Hwf. now apply Hwf. }
  pose proof (forEach_flatten_distinct (map rebuilt pairs) (map fst pairs) [])
    as H.
  rewrite Hq in H. unfold flatten.
  change (source_of []) with (@nil (string * value)) in H.
  change (target_of []) with (@nil (string * value)) in H.
  cbn [app map] in H.
  assert (Hc : combine (map fst pairs) (map rebuilt pairs)
               = map (fun p => (fst p, rebuilt p)) pairs).
  { clear. induction pairs as [|p l IH]; simpl; [reflexivity | now rewrite IH]. }
  rewrite Hc in H.
  assert (Hs : source_of (map (fun p => (fst p, rebuilt p)) pairs) = source_of pairs).
  { unfold source_of. rewrite !flat_map_concat_map, map_map. reflexivity. }
  assert (Ht : target_of (map (fun p => (fst p, rebuilt p)) pairs) = target_of pairs).
  { unfold target_of. rewrite !flat_map_concat_map, map_map. reflexivity. }
  rewrite Hs, Ht in H. apply H; [|assumption].
  clear. induction pairs as [|p l IH]; simpl; constructor;
    [reflexivity | exact IH].
Qed.

(** X10.  The round trip is stable: flattening the array reconstructed
    from the source mapping of an array of valid records gives the very
    mappings the first flattening gave. *)
Theorem flatten_transform_flatten (now : nat -> Z) (jsonData : list obj)
  (sourceJson targetJson : obj) :
  Forall (fun r => valid_record r = true) jsonData ->
  flatten jsonData = Ok (sourceJson, targetJson) ->
  flatten (transform now sourceJson) = Ok (sourceJson, targetJson).
Proof.
  intros Hvalid H. rewrite (flatten_valid jsonData Hvalid) in H.
  injection H as <- <-.
  destruct (by_identifier_well_formed jsonData Hvalid) as [Hnd Hwf].
  rewrite (transform_source_of now _ Hnd Hwf).
  now apply flatten_rebuilt.
Qed.

Lemma flatten_transform_flatten_witness :
  flatten
    (transform (fun _ => 0%Z)
       [("973fcb7a-154a-46f7-b7c6-134a16a46ea3_title", VStr "Bye");
        ("973fcb7a-154a-46f7-b7c6-134a16a46ea3_body", VStr "All")])
  = Ok ([("973fcb7a-154a-46f7-b7c6-134a16a46ea3_title", VStr "Bye");
         ("973fcb7a-154a-46f7-b7c6-134a16a46ea3_body", VStr "All")],
        [("973fcb7a-154a-46f7-b7c6-134a16a46ea3_title", VStr "");
         ("973fcb7a-154a-46f7-b7c6-134a16a46ea3_body", VStr "")]).
Proof.
  apply (flatten_transform_flatten (fun _ => 0%Z)
           [ [("title", VStr "Hello"); ("body", VStr "World");
              ("uuid", VStr "973fcb7a-154a-46f7-b7c6-134a16a46ea3")];
             [("title", VStr "Bye"); ("body", VStr "All");
              ("uuid", VStr "973fcb7a-154a-46f7-b7c6-134a16a46ea3")] ]).
  - repeat constructor.
  - reflexivity.
Defined.

Lemma get_all_empty (flat : obj) (k : string) :
  Forall (fun p => snd p = VStr "") flat ->
  or_else_value (get flat k) (VStr "") = VStr "".
Proof.
  unfold get. induction 1 as [|[k' v] l Hv _ IH]; simpl; [reflexivity|].
  simpl in Hv. subst v. destruct (String.eqb k' k); [reflexivity | exact IH].
Qed.

Lemma grouped_all_empty (flat : obj) (uuid : string) :
  Forall (fun p => snd p = VStr "") flat ->
  grouped flat uuid = [("title", VStr ""); ("body", VStr ""); ("uuid", VStr uuid)].
Proof.
  intros H. unfold grouped. now rewrite !get_all_empty.
Qed.

Lemma transform_target_of (now : nat -> Z) (pairs : list (string * obj)) :
  NoDup (map fst pairs) ->
  Forall well_formed pairs ->
  transform now (target_of pairs)
  = map (fun id => [("title", VStr ""); ("body", VStr ""); ("uuid", VStr id)])
      (map fst pairs).
Proof.
  intros Hnd Hwf.
  destruct pairs as [|p0 rest] eqn:E; [reflexivity|]. rewrite <- E in *.
  assert (Hne : pairs <> []) by (rewrite E; discriminate).
  assert (Hp : parsed (target_of pairs)).
  { unfold parsed. eapply Forall_impl; [|apply target_of_empty].
    intros p Hpv. now rewrite Hpv. }
  assert (Hm : existsb is_match (keys (target_of pairs)) = true).
  { rewrite keys_target_of, <- keys_source_of. now apply source_of_matched. }
  rewrite (transform_matched now _ Hp Hm).
  rewrite keys_target_of, <- keys_source_of.
  rewrite (matched_ids_source_of _ Hwf), (first_occurrences_doubled _ Hnd).
  apply map_ext. intros id. apply grouped_all_empty, target_of_empty.
Qed.

(** X11.  Reconstructing from the target mapping of an array of valid
    records, as it is before any translation, gives one record per
    distinct identifier, in the order of first occurrence, with that
    identifier and an empty title and body. *)
Theorem transform_untranslated_target (now : nat -> Z) (jsonData : list obj)
  (sourceJson targetJson : obj) :
  Forall (fun r => valid_record r = true) jsonData ->
  flatten jsonData = Ok (sourceJson, targetJson) ->
  transform now targetJson
  = map (fun id => [("title", VStr ""); ("body", VStr ""); ("uuid", VStr id)])
      (first_occurrences (map id_text jsonData)).
Proof.
  intros Hvalid H. rewrite (flatten_valid jsonData Hvalid) in H.
  injection H as <- <-.
  destruct (by_identifier_well_formed jsonData Hvalid) as [Hnd Hwf].
  now rewrite (transform_target_of now _ Hnd Hwf), by_identifier_fst.
Qed.

Lemma transform_untranslated_target_witness :
  transform (fun _ => 0%Z)
    [("973fcb7a-154a-46f7-b7c6-134a16a46ea3_title", VStr "");
     ("973fcb7a-154a-46f7-b7c6-134a16a46ea3_body", VStr "")]
  = [ [("title", VStr ""); ("body", VStr "");
       ("uuid", VStr "973fcb7a-154a-46f7-b7c6-134a16a46ea3")] ].
Proof.
  apply (transform_untranslated_target (fun _ => 0%Z)
           [ [("title", VStr "Hello"); ("body", VStr "World");
              ("uuid", VStr "973fcb7a-154a-46f7-b7c6-134a16a46ea3")] ]
           [("973fcb7a-154a-46f7-b7c6-134a16a46ea3_title", VStr "Hello");
            ("973fcb7a-154a-46f7-b7c6-134a16a46ea3_body", VStr "World")]).
  - repeat constructor.
  - reflexivity.
Defined.

End MoreRoundTrips.

(** ** Keys and records *)

Section KeysAndRecords.

Lemma is_match_title_key_accepted (uuid : string) :
  is_match (title_key uuid) = accepted_identifier uuid.
Proof.
  unfold is_match, accepted_identifier.
  destruct (uuidMatch (title_key uuid)) as [[u f]|] eqn:Hm.
  - apply uuidMatch_iff in Hm as (E & Hlen & Hall & [->| ->]).
    + apply title_key_inj in E. subst u.
      now rewrite Hlen, Hall.
    + now apply title_key_not_body_key in E.
  - apply eq_sym, not_true_is_false. intros H.
    apply andb_prop in H as [Hlen Hall]. apply Nat.eqb_eq in Hlen.
    unfold title_key in Hm. now rewrite (uuidMatch_title_key _ Hlen Hall) in Hm.
Qed.

Lemma is_match_body_key_accepted (uuid : string) :
  is_match (body_key uuid) = accepted_identifier uuid.
Proof.
  unfold is_match, accepted_identifier.
  destruct (uuidMatch (body_key uuid)) as [[u f]|] eqn:Hm.
  - apply uuidMatch_iff in Hm as (E & Hlen & Hall & [->| ->]).
    + symmetry in E. now apply title_key_not_body_key in E.
    + apply body_key_inj in E. subst u.
      now rewrite Hlen, Hall.
  - apply eq_sym, not_true_is_false. intros H.
    apply andb_prop in H as [Hlen Hall]. apply Nat.eqb_eq in Hlen.
    unfold body_key in Hm. now rewrite (uuidMatch_body_key _ Hlen Hall) in Hm.
Qed.

(** X12.  The keys the flattening makes never collide: the title key and
    the body key of two records are the same only for the same identifier
    text, and a title key is never a body key.  The reconstruction
    recognises such a key exactly when the identifier is one it accepts,
    and then with that identifier and that field. *)
Theorem flat_keys_distinct_and_recognised (a b : string) :
  (title_key a = title_key b <-> a = b)
  /\ (body_key a = body_key b <-> a = b)
  /\ title_key a <> body_key b
  /\ is_match (title_key a) = accepted_identifier a
  /\ is_match (body_key a) = accepted_identifier a
  /\ (accepted_identifier a = true ->
      uuidMatch (title_key a) = Some (a, "title")
      /\ uuidMatch (body_key a) = Some (a, "body")).
Proof.
  split; [split; [apply title_key_inj | now intros ->]|].
  split; [split; [apply body_key_inj | now intros ->]|].
  split; [apply title_key_not_body_key|].
  split; [apply is_match_title_key_accepted|].
  split; [apply is_match_body_key_accepted|].
  unfold accepted_identifier. intros H.
  apply andb_prop in H as [Hlen Hall]. apply Nat.eqb_eq in Hlen.
  split; [now apply uuidMatch_title_key | now apply uuidMatch_body_key].
Qed.

Lemma flat_keys_recognised_witness :
  uuidMatch (title_key "973fcb7a-154a-46f7-b7c6-134a16a46ea3")
  = Some ("973fcb7a-154a-46f7-b7c6-134a16a46ea3", "title").
Proof.
  apply (flat_keys_distinct_and_recognised
           "973fcb7a-154a-46f7-b7c6-134a16a46ea3" "").
  reflexivity.
Defined.

Lemma generated_not_accepted (reading : Z) (index : nat) :
  accepted_identifier (generated reading index) = false.
Proof. unfold accepted_identifier, generated. simpl. apply andb_false_r. Qed.

Lemma fallback_from_shape (now : nat -> Z) (flat : obj) (ks : list string) :
  forall index r,
    In r (fallback_from now flat index ks) ->
    keys r = ["title"; "body"; "uuid"]
    /\ exists reading i, get r "uuid" = VStr (generated reading i).
Proof.
  induction ks as [|key ks IH]; intros index r; simpl; [contradiction|].
  intros [<-|H]; [|now apply (IH (S index))].
  split; [reflexivity|]. now exists (now index), index.
Qed.

Lemma grouped_shape (flat : obj) (uuid : string) :
  keys (grouped flat uuid) = ["title"; "body"; "uuid"]
  /\ get (grouped flat uuid) "uuid" = VStr uuid
  /\ (truthy (get (grouped flat uuid) "title") = true
      \/ get (grouped flat uuid) "title" = VStr "")
  /\ (truthy (get (grouped flat uuid) "body") = true
      \/ get (grouped flat uuid) "body" = VStr "").
Proof.
  split; [reflexivity|]. split; [reflexivity|].
  change (get (grouped flat uuid) "title")
    with (or_else_value (get flat (uuid ++ "_title")) (VStr "")).
  change (get (grouped flat uuid) "body")
    with (or_else_value (get flat (uuid ++ "_body")) (VStr "")).
  unfold or_else_value.
  destruct (truthy (get flat (uuid ++ "_title"))) eqn:Ht,
           (truthy (get flat (uuid ++ "_body"))) eqn:Hb; auto.
Qed.

(** X13.  Every record of the output, for any mapping, has the fields
    [title], [body] and [uuid], in this order, and a text as identifier:
    either a generated one, or an accepted identifier that occurs in a
    matching key, and then the title and the body are truthy or the empty
    text, a [null], [false], zero or missing value being written as the
    empty text. *)
Theorem transform_record_shape (now : nat -> Z) (flat : obj) (r : obj) :
  In r (transform now flat) ->
  keys r = ["title"; "body"; "uuid"]
  /\ ((exists reading index, get r "uuid" = VStr (generated reading index))
      \/ (exists uuid,
             get r "uuid" = VStr uuid
             /\ accepted_identifier uuid = true
             /\ In uuid (matched_ids (keys flat))
             /\ (truthy (get r "title") = true \/ get r "title" = VStr "")
             /\ (truthy (get r "body") = true \/ get r "body" = VStr ""))).
Proof.
  unfold transform. rewrite transformedData_groups.
  destruct (Nat.eqb _ 0).
  - intros H. apply fallback_from_shape in H as [Hk Hg]. auto.
  - intros H. apply in_map_iff in H as (uuid & <- & Hin).
    apply (proj1 (first_occurrences_In _ _)) in Hin.
    apply filter_In in Hin as [Hin _].
    destruct (grouped_shape flat uuid) as (Hk & Hu & Ht & Hb).
    split; [exact Hk|]. right. exists uuid.
    destruct (matched_id_shape _ _ Hin) as [Hlen Hall].
    unfold accepted_identifier. rewrite Hlen, Hall. auto.
Qed.

Lemma transform_record_shape_witness :
  keys [("title", VStr ""); ("body", VStr "B");
        ("uuid", VStr "973fcb7a-154a-46f7-b7c6-134a16a46ea3")]
  = ["title"; "body"; "uuid"].
Proof.
  apply (transform_record_shape (fun _ => 0%Z)
           [ ("973fcb7a-154a-46f7-b7c6-134a16a46ea3_title", VNum "0");
             ("973fcb7a-154a-46f7-b7c6-134a16a46ea3_body", VStr "B") ]).
  left. reflexivity.
Defined.

(** X14.  Records whose identifiers the reconstruction does not accept do
    not come back: for an array of qualifying records with pairwise
    different text identifiers none of which is accepted, reconstructing
    from the source mapping gives the fallback records, two per record of
    the array, one for each flat key. *)
Theorem roundtrip_unaccepted_identifiers (now : nat -> Z) (jsonData : list obj) :
  Forall
    (fun r => qualifies r = true
              /\ get r "uuid" = VStr (id_text r)
              /\ accepted_identifier (id_text r) = false)
    jsonData ->
  NoDup (map id_text jsonData) ->
  exists sourceJson targetJson,
    flatten jsonData = Ok (sourceJson, targetJson)
    /\ transform now sourceJson
       = map (fun ie => fallback_record now (fst ie) (snd ie))
           (indexed_from 0 sourceJson)
    /\ List.length (transform now sourceJson) = 2 * List.length jsonData.
Proof.
  intros Hall Hnd.
  assert (Hq : filter qualifies jsonData = jsonData).
  { apply forallb_filter_id, forallb_forall. rewrite Forall_forall in Hall.
    intros r Hr. now apply Hall. }
  pose proof (forEach_flatten_distinct jsonData (map id_text jsonData) []) as H.
  rewrite Hq in H.
  change (source_of []) with (@nil (string * value)) in H.
  change (target_of []) with (@nil (string * value)) in H.
  cbn [app map] in H.
  set (pairs := combine (map id_text jsonData) jsonData) in *.
  assert (Hfst : map fst pairs = map id_text jsonData).
  { apply combine_fst. now rewrite length_map. }
  exists (source_of pairs), (target_of pairs).
  split.
  { apply H; [|assumption]. clear - Hall.
    induction Hall as [|r l (_ & Hu & _) _ IH]; simpl; constructor;
      [now rewrite Hu | exact IH]. }
  assert (Hk : NoDup (keys (source_of pairs))).
  { rewrite keys_source_of, Hfst. now apply keys_of_ids_NoDup. }
  assert (Hm : existsb is_match (keys (source_of pairs)) = false).
  { apply not_true_is_false. intros E.
    apply existsb_exists in E as (k & Hkin & Hmatch).
    rewrite keys_source_of, Hfst in Hkin.
    apply in_keys_of_ids in Hkin as (id & Hid & Hkey).
    apply in_map_iff in Hid as (r & <- & Hr).
    rewrite Forall_forall in Hall. destruct (Hall r Hr) as (_ & _ & Hna).
    destruct Hkey as [->| ->];
      [rewrite is_match_title_key_accepted in Hmatch
      |rewrite is_match_body_key_accepted in Hmatch]; congruence. }
  rewrite (transform_unmatched now _ Hk Hm).
  split; [reflexivity|].
  rewrite length_map, indexed_from_length.
  rewrite <- (length_map fst (source_of pairs)).
  fold (keys (source_of pairs)).
  rewrite keys_source_of, keys_of_ids_length, Hfst, length_map. reflexivity.
Qed.

Lemma roundtrip_unaccepted_identifiers_witness :
  exists sourceJson targetJson,
    flatten [ [("uuid", VStr "item-1"); ("title", VStr "T"); ("body", VStr "B")] ]
    = Ok (sourceJson, targetJson)
    /\ List.length (transform (fun _ => 0%Z) sourceJson) = 2 * 1.
Proof.
  destruct (roundtrip_unaccepted_identifiers (fun _ => 0%Z)
              [ [("uuid", VStr "item-1"); ("title", VStr "T"); ("body", VStr "B")] ])
    as (sourceJson & targetJson & H & _ & Hlen).
  - repeat constructor.
  - repeat constructor. simpl. tauto.
  - exists sourceJson, targetJson. split; assumption.
Defined.

End KeysAndRecords.

(** ** Source records without identifier, and [main] *)

Section Validation.

Import ConsolidationMain.

(** X15.  A source record that carries no identifier (none, or a falsy
    one) is passed over entirely: it gives no unit and no warning, it is
    not the record the translatable fields are read from, and the run
    gives the same result without it. *)
Theorem generateXliffContent_skips_unidentified
  (before after targetData : list obj) (item : obj)
  (sourceLang targetLang : string) :
  truthy (get item "uuid") = false ->
  generateXliffContent (before ++ item :: after) targetData sourceLang targetLang
  = generateXliffContent (before ++ after) targetData sourceLang targetLang.
Proof.
  intros Hu. unfold generateXliffContent, firstSourceItem.
  rewrite (find_remove (fun i => truthy (get i "uuid")) before after item Hu).
  destruct (find (fun i => truthy (get i "uuid")) (before ++ after))
    as [first|]; [|reflexivity].
  rewrite !forEach_app. cbn [forEach].
  destruct (forEach (item_step (translatableFields first) (targetMap targetData))
              before start) as [st|e]; cbn [bind]; [|reflexivity].
  unfold item_step at 1. rewrite Hu. reflexivity.
Qed.

Lemma generateXliffContent_skips_unidentified_witness :
  generateXliffContent
    ([] ++ [("title", VStr "no identifier"); ("extra", VStr "field")]
     :: [ [("uuid", VStr "X"); ("title", VStr "A")] ])
    [ [("uuid", VStr "X"); ("title", VStr "T")] ] "en" "ko"
  = generateXliffContent
      ([] ++ [ [("uuid", VStr "X"); ("title", VStr "A")] ])
      [ [("uuid", VStr "X"); ("title", VStr "T")] ] "en" "ko".
Proof.
  apply generateXliffContent_skips_unidentified. reflexivity.
Defined.

Lemma as_records_objects (records : list obj) :
  as_records (map VObj records) = Ok records.
Proof.
  induction records as [|r l IH]; simpl; [reflexivity|]. now rewrite IH.
Qed.

Lemma as_records_null (elems : list value) :
  In VNull elems -> as_records elems = Throw TypeError.
Proof.
  induction elems as [|v l IH]; simpl; [contradiction|].
  intros [->|H]; [reflexivity|].
  destruct (as_record v) as [r|e] eqn:E; simpl.
  - now rewrite (IH H).
  - destruct v; try discriminate; simpl in E; congruence.
Qed.

Lemma main_writes_iff (w : world) (args : list string)
  (path text : string) :
  main w args = Written path text <->
  3 <= List.length args <= 5
  /\ path = nth 2 args ""
  /\ existsSync w (nth 0 args "") = true
  /\ existsSync w (nth 1 args "") = true
  /\ exists sourceData targetData x warns,
      readJson w (nth 0 args "") = Ok (VArr sourceData)
      /\ readJson w (nth 1 args "") = Ok (VArr targetData)
      /\ generate sourceData targetData (nth 3 args "en") (nth 4 args "ko")
         = Ok (x, warns)
      /\ ensureDir w (nth 2 args "") = Ok tt
      /\ writeFileSync w (nth 2 args "") (content x) = Ok tt
      /\ text = content x.
Proof.
  unfold main. split.
  - destruct (Nat.ltb_spec (List.length args) 3) as [|Hlo]; [discriminate|].
    destruct (Nat.ltb_spec 5 (List.length args)) as [|Hhi]; [discriminate|].
    cbn [orb].
    destruct (existsSync w (nth 0 args "")); [|discriminate].
    destruct (existsSync w (nth 1 args "")); [|discriminate].
    cbn [negb].
    destruct (readJson w (nth 0 args "")) as [sj|]; [|discriminate].
    destruct (readJson w (nth 1 args "")) as [tj|]; [|discriminate].
    destruct sj as [| | | | |sourceData|]; try discriminate.
    destruct tj as [| | | | |targetData|]; try discriminate.
    cbn [isArray].
    destruct (generate sourceData targetData (nth 3 args "en") (nth 4 args "ko"))
      as [[x warns]|] eqn:G; [|discriminate].
    destruct (ensureDir w (nth 2 args "")) as [[]|]; [|discriminate].
    destruct (writeFileSync w (nth 2 args "") (content x)) as [[]|] eqn:Hw;
      [|discriminate].
    intros H. injection H as <- <-.
    repeat split; try lia.
    exists sourceData, targetData, x, warns.
    repeat split; solve [reflexivity | assumption].
  - intros (Hlen & -> & Hs & Ht & sourceData & targetData & x & warns
            & Hrs & Hrt & G & Hd & Hw & ->).
    destruct (Nat.ltb_spec (List.length args) 3); [lia|].
    destruct (Nat.ltb_spec 5 (List.length args)); [lia|].
    cbn [orb]. rewrite Hs, Ht, Hrs, Hrt. cbn [negb isArray].
    now rewrite G, Hd, Hw.
Qed.


(** X16.  [main] ends normally, the output written, exactly when every
    step has passed: three to five arguments, both input files there and
    parsed as arrays, a generation that returns, the directory of the
    output ready, and a write that succeeds; the file written is the third
    argument and its text the generated document, in the languages given
    or else [en] and [ko].  In every other case, a write that fails
    included, it exits with status 1. *)
Theorem main_writes_only_valid_output (w : world) (args : list string)
  (path text : string) :
  (main w args = Written path text <->
   3 <= List.length args <= 5
   /\ path = nth 2 args ""
   /\ existsSync w (nth 0 args "") = true
   /\ existsSync w (nth 1 args "") = true
   /\ exists sourceData targetData x warns,
       readJson w (nth 0 args "") = Ok (VArr sourceData)
       /\ readJson w (nth 1 args "") = Ok (VArr targetData)
       /\ generate sourceData targetData (nth 3 args "en") (nth 4 args "ko")
          = Ok (x, warns)
       /\ ensureDir w (nth 2 args "") = Ok tt
       /\ writeFileSync w (nth 2 args "") (content x) = Ok tt
       /\ text = content x)
  /\ ((forall t, writeFileSync w (nth 2 args "") t <> Ok tt) ->
      main w args = Exit1).
Proof.
  split; [apply main_writes_iff|].
  intros Hfail. destruct (main w args) as [|p t] eqn:E; [reflexivity|].
  apply main_writes_iff in E
    as (_ & _ & _ & _ & sourceData & targetData & x & warns
        & _ & _ & _ & _ & Hw & _).
  now apply Hfail in Hw.
Qed.

Lemma main_writes_only_valid_output_witness :
  main
    {| existsSync := fun _ => true;
       readJson :=
         fun path =>
           if String.eqb path "source.json"
           then Ok (VArr [VObj [("uuid", VStr "X"); ("title", VStr "A")]])
           else Ok (VArr [VObj [("uuid", VStr "X"); ("title", VStr "T")]]);
       ensureDir := fun _ => Ok tt;
       writeFileSync := fun _ _ => Ok tt |}
    ["source.json"; "target.json"; "out.xliff"]
  = Written "out.xliff"
      (document "en" "ko"
         (render_unit {| unit_id := "X_title"; unit_source := "A";
                         unit_target := "T";
                         unit_note := "title for UUID: X" |}))
  /\ main
       {| existsSync := fun _ => true;
          readJson :=
            fun path =>
              if String.eqb path "source.json"
              then Ok (VArr [VObj [("uuid", VStr "X"); ("title", VStr "A")]])
              else Ok (VArr [VObj [("uuid", VStr "X"); ("title", VStr "T")]]);
          ensureDir := fun _ => Ok tt;
          writeFileSync := fun _ _ => Throw (Error "EISDIR") |}
       ["source.json"; "target.json"; "outdir"]
     = Exit1.
Proof.
  split.
  - apply (proj1 (main_writes_only_valid_output _ _ _ _)).
    split; [simpl; lia|]. repeat split.
    eexists. eexists. eexists. eexists.
    repeat split; reflexivity.
  - apply (proj2 (main_writes_only_valid_output _ _ "" "")).
    intros t. discriminate.
Defined.

(** X17.  Input that is no array of records is refused: when either file
    parses to something other than an array, or to an array that holds a
    [null], [main] exits with status 1 and writes nothing, whatever the
    other file, the arguments and the file system are. *)
Theorem main_rejects_invalid_input (w : world) (args : list string)
  (sourceJson targetJson : value) :
  readJson w (nth 0 args "") = Ok sourceJson ->
  readJson w (nth 1 args "") = Ok targetJson ->
  (isArray sourceJson = None \/ isArray targetJson = None
   \/ (exists elems, sourceJson = VArr elems /\ In VNull elems)
   \/ (exists elems, targetJson = VArr elems /\ In VNull elems)) ->
  main w args = Exit1.
Proof.
  intros Hrs Hrt Hbad.
  destruct (main w args) as [|path text] eqn:E; [reflexivity|]. exfalso.
  apply main_writes_iff in E
    as (_ & _ & _ & _ & sourceData & targetData & x & warns
        & Hrs' & Hrt' & G & _ & _ & _).
  rewrite Hrs in Hrs'. rewrite Hrt in Hrt'.
  injection Hrs' as ->. injection Hrt' as ->.
  unfold generate in G.
  destruct Hbad as [H|[H|[(elems & H & Hn)|(elems & H & Hn)]]];
    try discriminate.
  - injection H as ->. rewrite (as_records_null _ Hn) in G.
    destruct (as_records targetData); discriminate.
  - injection H as ->. rewrite (as_records_null _ Hn) in G. discriminate.
Qed.

Lemma main_rejects_invalid_input_witness :
  main
    {| existsSync := fun _ => true;
       readJson :=
         fun path =>
           if String.eqb path "source.json"
           then Ok (VObj [("uuid", VStr "X"); ("title", VStr "A")])
           else Ok (VArr [VObj [("uuid", VStr "X"); ("title", VStr "T")]]);
       ensureDir := fun _ => Ok tt;
       writeFileSync := fun _ _ => Ok tt |}
    ["source.json"; "target.json"; "out.xliff"]
  = Exit1.
Proof.
  apply (main_rejects_invalid_input _ _
           (VObj [("uuid", VStr "X"); ("title", VStr "A")])
           (VArr [VObj [("uuid", VStr "X"); ("title", VStr "T")]])).
  - reflexivity.
  - reflexivity.
  - left. reflexivity.
Defined.

(** X18.  From the command line to the file: with the three paths as only
    arguments, both files there and holding arrays of records, [first] the
    first source record that carries an identifier, the identifiers of the
    source records and the values of the translatable fields in the target
    records texts, the directory of the output ready and the file system
    accepting the write, [main] ends normally having written to the third
    path the document in the languages [en] and [ko] around the units of
    the source records, each with its last target record. *)
Theorem main_consolidates (w : world) (sourceFile targetFile outputFile : string)
  (sourceData targetData : list obj) (first : obj) :
  existsSync w sourceFile = true ->
  existsSync w targetFile = true ->
  readJson w sourceFile = Ok (VArr (map VObj sourceData)) ->
  readJson w targetFile = Ok (VArr (map VObj targetData)) ->
  ensureDir w outputFile = Ok tt ->
  (forall text, writeFileSync w outputFile text = Ok tt) ->
  firstSourceItem sourceData = Some first ->
  Forall text_identifier sourceData ->
  Forall (text_fields (translatableFields first)) targetData ->
  main w [sourceFile; targetFile; outputFile]
  = Written outputFile
      (document "en" "ko"
         (render_units
            (units_of (translatableFields first) targetData sourceData))).
Proof.
  intros Hs Ht Hrs Hrt Hd Hw Hfirst Hid Hf.
  apply main_writes_iff. cbn [List.length nth].
  split; [lia|]. split; [reflexivity|]. split; [assumption|].
  split; [assumption|].
  exists (map VObj sourceData), (map VObj targetData),
    {| content :=
         document "en" "ko"
           (render_units
              (units_of (translatableFields first) targetData sourceData));
       xliff_unitCount :=
         List.length (units_of (translatableFields first) targetData sourceData);
       fieldCount := List.length (translatableFields first) |},
    (warnings_of targetData sourceData).
  split; [exact Hrs|]. split; [exact Hrt|].
  split; [|split; [exact Hd | split; [apply Hw | reflexivity]]].
  unfold generate. rewrite !as_records_objects. cbn [bind].
  apply (generateXliffContent_text_run _ _ _ _ first Hfirst Hid Hf).
Qed.

Lemma main_consolidates_witness :
  main
    {| existsSync := fun _ => true;
       readJson :=
         fun path =>
           if String.eqb path "source.json"
           then Ok (VArr (map VObj [ [("uuid", VStr "X"); ("title", VStr "A")] ]))
           else Ok (VArr (map VObj [ [("uuid", VStr "X"); ("title", VStr "T")] ]));
       ensureDir := fun _ => Ok tt;
       writeFileSync := fun _ _ => Ok tt |}
    ["source.json"; "target.json"; "out.xliff"]
  = Written "out.xliff"
      (document "en" "ko"
         (render_units
            (units_of (translatableFields [("uuid", VStr "X"); ("title", VStr "A")])
               [ [("uuid", VStr "X"); ("title", VStr "T")] ]
               [ [("uuid", VStr "X"); ("title", VStr "A")] ]))).
Proof.
  apply main_consolidates; try reflexivity.
  - apply Forall_cons; [right; eexists; reflexivity | apply Forall_nil].
  - apply Forall_cons; [|apply Forall_nil].
    intros f [<-|[]]. eexists. reflexivity.
Defined.

End Validation.
